(** * digital-human: the real-time media pipeline of the s2s client

    A shallow embedding of
    - [public/worklets/audio-processor.js]  (module [PCMProcessor]),
    - [src/utils/audio-manager.ts]          (module [AudioManager]),
    - [src/hooks/useTransparentVideo.ts]    (modules [WebGLVideoRenderer]
                                             and [RenderLoop]),
    - the LiveTalking WebRTC manager        (module [LiveTalkingWebRTC]),
    with the properties of the specification proved about them.

    JavaScript numbers are IEEE 754 binary64 values.  Audio samples, the
    RMS level, the aspect ratio and the numbers of a JSON document are
    modelled with Rocq's primitive binary64 floats; array indices,
    counters and pixel dimensions, which only ever hold small
    non-negative integers, are modelled in [Z].

    Observers supplied by the caller ([onStatusChange], [onAudioActivity],
    [onError], ...) are recorded as effects and taken not to throw. *)

From Stdlib Require Import ZArith Floats Uint63 Lia.
From stdpp Require Import base list strings pretty.

#[local] Open Scope Z_scope.
Set Warnings "-inexact-float".

(** ** Typed arrays

    A Float32Array is the list of its elements.  Every sample that enters
    the pipeline comes out of a Float32Array (the view that
    [handleAudioData] creates over a received ArrayBuffer, or a capture
    channel), so it is a binary32 value and storing it in another
    Float32Array keeps it as it is. *)

Module Float32Array.

(** [a[i]] on a typed array: the element, or [undefined] out of range. *)
Definition get (a : list float) (i : Z) : option float :=
  if decide (0 <= i) then a !! Z.to_nat i else None.

(** [a[i] = v]: an out-of-range store on a typed array is ignored. *)
Definition set (a : list float) (i : Z) (v : float) : list float :=
  if decide (0 <= i) then <[Z.to_nat i := v]> a else a.

(** The value that lands in a Float32Array slot when the right-hand side
    may be [undefined]: [undefined] converts to NaN. *)
Definition coerce (v : option float) : float := default nan v.

(** [new Float32Array(n)] is zero filled. *)
Definition make (n : Z) : list float := replicate (Z.to_nat n) 0%float.

End Float32Array.

(** ** audio-processor.js: class PCMProcessor *)

Module PCMProcessor.

Record t : Type := mk {
  bufferSize : Z;
  buffer : list float;
  writeIndex : Z;
  readIndex : Z;
  availableSamples : Z
}.

(** [e.data] of a message received on the worklet port. *)
Inductive message : Type :=
| Buffer (buffer : list float)      (* {type:'buffer', buffer}  *)
| Clear                             (* {type:'clear'}           *)
| Unknown.                          (* any other [type]         *)

(** What [process] posts to the main thread. *)
Inductive posted : Type :=
| Input (buffer : list float).      (* {type:'input', buffer}   *)

Definition constructor : t :=
  {| bufferSize := 24000 * 5;
     buffer := Float32Array.make (24000 * 5);
     writeIndex := 0;
     readIndex := 0;
     availableSamples := 0 |}.

(** Body of the [for] loop of the ['buffer'] branch, for one [newData[i]]. *)
Definition write_sample (s : t) (x : float) : t :=
  if decide (availableSamples s < bufferSize s) then
    {| bufferSize := bufferSize s;
       buffer := Float32Array.set (buffer s) (writeIndex s) x;
       writeIndex := Z.rem (writeIndex s + 1) (bufferSize s);
       readIndex := readIndex s;
       availableSamples := availableSamples s + 1 |}
  else s.

Definition write_loop (s : t) (newData : list float) : t :=
  foldl write_sample s newData.

Definition onmessage (s : t) (e : message) : t :=
  match e with
  | Buffer newData => write_loop s newData
  | Clear =>
      {| bufferSize := bufferSize s;
         buffer := buffer s;
         writeIndex := 0;
         readIndex := 0;
         availableSamples := 0 |}
  | Unknown => s
  end.

(** Body of the playback [for] loop: the value stored in
    [outputChannel[i]] and the state afterwards. *)
Definition read_sample (s : t) : t * float :=
  if decide (availableSamples s > 0) then
    ({| bufferSize := bufferSize s;
        buffer := buffer s;
        writeIndex := writeIndex s;
        readIndex := Z.rem (readIndex s + 1) (bufferSize s);
        availableSamples := availableSamples s - 1 |},
     Float32Array.coerce (Float32Array.get (buffer s) (readIndex s)))
  else (s, 0%float).

(** The playback loop over an output channel of [n] frames; every slot of
    the channel is overwritten, so the channel afterwards is the list of
    the values stored. *)
Fixpoint read_loop (s : t) (n : nat) : t * list float :=
  match n with
  | O => (s, [])
  | S n' =>
      let '(s1, x) := read_sample s in
      let '(s2, xs) := read_loop s1 n' in
      (s2, x :: xs)
  end.

(** [target.set(source)]: copies [source] to the start of [target];
    a source longer than the target is a RangeError ([None]). *)
Definition typed_set_from (target source : list float) : option (list float) :=
  if decide (length source <= length target)%nat
  then Some (source ++ drop (length source) target)
  else None.

(** The stereo copy loop [for (ch = 1; ...) output[ch].set(outputChannel)];
    [None] when one of the copies throws. *)
Fixpoint copy_channels (outputChannel : list float) (rest : list (list float))
  : option (list (list float)) :=
  match rest with
  | [] => Some []
  | c :: rest' =>
      match typed_set_from c outputChannel with
      | None => None
      | Some c' =>
          match copy_channels outputChannel rest' with
          | None => None
          | Some cs => Some (c' :: cs)
          end
      end
  end.

(** How a call of [process] ends. *)
Inductive completion : Type :=
| Returns (keepAlive : bool) (outputs : list (list (list float)))
| Throws.

(** Part 1 of [process]: the capture side. *)
Definition capture (inputs : list (list (list float))) : list posted :=
  match inputs with
  | (inputChannel :: _) :: _ =>
      match inputChannel with
      | [] => []
      | _ :: _ => [Input inputChannel]
      end
  | _ => []
  end.

(** [process(inputs, outputs, parameters)]: the new state, the messages
    posted on the port, and the outcome with the output buses as the
    host sees them afterwards. *)
Definition process (s : t) (inputs outputs : list (list (list float)))
  : t * list posted * completion :=
  let msgs := capture inputs in
  match outputs with
  | (outputChannel :: rest) :: others =>
      let '(s', filled) := read_loop s (length outputChannel) in
      match copy_channels filled rest with
      | Some rest' => (s', msgs, Returns true ((filled :: rest') :: others))
      | None => (s', msgs, Throws)
      end
  | _ => (s, msgs, Returns true outputs)
  end.

(** *** Driving the processor

    The two things that touch the ring buffer: a message on the port and
    a render quantum whose first output has a first channel of [n]
    frames. *)
Inductive op : Type :=
| Msg (e : message)
| Render (n : nat).

Definition step (s : t) (o : op) : t :=
  match o with
  | Msg e => onmessage s e
  | Render n => fst (read_loop s n)
  end.

Definition run (s : t) (ops : list op) : t := foldl step s ops.

(** Successive render quanta of the given frame counts, with everything
    played, in order. *)
Fixpoint drain (s : t) (frames : list nat) : t * list float :=
  match frames with
  | [] => (s, [])
  | n :: frames' =>
      let '(s1, out1) := read_loop s n in
      let '(s2, out2) := drain s1 frames' in
      (s2, out1 ++ out2)
  end.

(** An operation that can put samples into the buffer. *)
Definition is_write (o : op) : bool :=
  match o with
  | Msg (Buffer _) => true
  | _ => false
  end.

(** *** Abstraction: the samples waiting to be played, oldest first *)

Definition slot (s : t) (j : Z) : float :=
  Float32Array.coerce
    (Float32Array.get (buffer s) (Z.rem (readIndex s + j) (bufferSize s))).

Definition pending (s : t) : list float :=
  slot s <$> seqZ 0 (availableSamples s).

(** The data-model invariant of the ring buffer. *)
Record wf (s : t) : Prop := {
  wf_size : 0 < bufferSize s;
  wf_buffer : length (buffer s) = Z.to_nat (bufferSize s);
  wf_read : 0 <= readIndex s < bufferSize s;
  wf_write : 0 <= writeIndex s < bufferSize s;
  wf_avail : 0 <= availableSamples s <= bufferSize s;
  wf_cursor : writeIndex s = (readIndex s + availableSamples s) mod bufferSize s
}.

End PCMProcessor.

(** ** The ring buffer as the specification words it (section 4.1)

    A bounded first-in first-out queue: [write] appends while there is
    room and drops the rest, [read] takes from the front and pads with
    silence, [clear] empties it. *)

Module RingBufferSpec.

Definition capacity : Z := 24000 * 5.

Definition write (q samples : list float) : list float :=
  q ++ take (Z.to_nat capacity - length q)%nat samples.

Definition read (q : list float) (count : nat) : list float * list float :=
  (drop count q, take count q ++ replicate (count - length q)%nat 0%float).

Definition clear (q : list float) : list float := [].

Definition step (q : list float) (o : PCMProcessor.op) : list float :=
  match o with
  | PCMProcessor.Msg (PCMProcessor.Buffer samples) => write q samples
  | PCMProcessor.Msg PCMProcessor.Clear => clear q
  | PCMProcessor.Msg PCMProcessor.Unknown => q
  | PCMProcessor.Render n => fst (read q n)
  end.

Definition run (q : list float) (ops : list PCMProcessor.op) : list float :=
  foldl step q ops.

End RingBufferSpec.

(** ** Exceptions, state and observable effects

    The TypeScript classes mutate their fields, call out to observers and
    platform objects, and throw.  A computation is a function from the
    object's fields to an outcome, the fields afterwards and the effects
    performed, in order. *)

Module Eff.

Inductive exn : Type :=
| Error (message : string)          (* new Error(message)                  *)
| SyntaxError                       (* JSON.parse on malformed text         *)
| TypeError                         (* property access on null              *)
| RangeError                        (* typed-array length / offset errors   *)
| Rejected (reason : string).       (* a platform promise that rejects      *)

(** [String(error)] as used for the error observer. *)
Definition exn_to_string (e : exn) : string :=
  match e with
  | Error m => "Error: " +:+ m
  | SyntaxError => "SyntaxError"
  | TypeError => "TypeError"
  | RangeError => "RangeError"
  | Rejected r => r
  end.

Inductive outcome (A : Type) : Type :=
| Normal (a : A)
| Thrown (e : exn).
Arguments Normal {A} a.
Arguments Thrown {A} e.

Definition M (S E A : Type) : Type := S -> outcome A * S * list E.

Section Ops.
Context {S E : Type}.

Definition ret {A} (a : A) : M S E A := fun s => (Normal a, s, []).

Definition bind {A B} (m : M S E A) (k : A -> M S E B) : M S E B :=
  fun s =>
    match m s with
    | (Normal a, s1, out1) =>
        let '(r, s2, out2) := k a s1 in (r, s2, out1 ++ out2)
    | (Thrown e, s1, out1) => (Thrown e, s1, out1)
    end.

Definition throw {A} (e : exn) : M S E A := fun s => (Thrown e, s, []).

Definition get : M S E S := fun s => (Normal s, s, []).

Definition modify (f : S -> S) : M S E unit := fun s => (Normal tt, f s, []).

Definition emit (e : E) : M S E unit := fun s => (Normal tt, s, [e]).

(** [try { body } catch (e) { handler(e) }] *)
Definition try_catch {A} (body : M S E A) (handler : exn -> M S E A) : M S E A :=
  fun s =>
    match body s with
    | (Normal a, s1, out1) => (Normal a, s1, out1)
    | (Thrown e, s1, out1) =>
        let '(r, s2, out2) := handler e s1 in (r, s2, out1 ++ out2)
    end.

(** [if (c) { m }] *)
Definition when (c : bool) (m : M S E unit) : M S E unit :=
  if c then m else ret tt.
End Ops.

(** The parts of what a computation yields. *)
Definition result_of {S E A} (r : outcome A * S * list E) : outcome A := fst (fst r).
Definition state_of {S E A} (r : outcome A * S * list E) : S := snd (fst r).
Definition effects_of {S E A} (r : outcome A * S * list E) : list E := snd r.

Module Notations.
Notation "x <- m ;; k" := (bind m (fun x => k))
  (at level 100, m at next level, right associativity).
Notation "m ;; k" := (bind m (fun _ => k))
  (at level 100, right associativity).
End Notations.

End Eff.

(** ** JSON values, as [JSON.parse] and [response.json()] produce them *)

Module Json.

#[local] Unset Elimination Schemes.
Inductive value : Type :=
| Null
| Bool (b : bool)
| Number (x : float)
| String (s : string)
| Array (elements : list value)
| Object (members : list (string * value)).
#[local] Set Elimination Schemes.

(** A member of an object by name; the parser keeps one binding per key. *)
Fixpoint member (k : string) (ms : list (string * value)) : option value :=
  match ms with
  | [] => None
  | (k', v) :: ms' => if String.eqb k k' then Some v else member k ms'
  end.

(** [data.k]: throws on [null]; [undefined] ([None]) when absent.  The
    names read by this program ([type], [message]) are not own or
    inherited properties of booleans, numbers, strings or arrays. *)
Definition prop (data : value) (k : string) : Eff.outcome (option value) :=
  match data with
  | Null => Eff.Thrown Eff.TypeError
  | Object ms => Eff.Normal (member k ms)
  | _ => Eff.Normal None
  end.

(** [v === 'lit'] for a value that may be [undefined]. *)
Definition is_string (v : option value) (lit : string) : bool :=
  match v with
  | Some (String s) => String.eqb s lit
  | _ => false
  end.

End Json.

(** ** audio-manager.ts: class AudioManager *)

Module AudioManager.
Import Eff Eff.Notations.

Inductive ConnectionStatus : Type :=
| disconnected | connecting | ready | processing | error.

#[global] Instance ConnectionStatus_eq_dec : EqDecision ConnectionStatus.
Proof. solve_decision. Defined.

(** Which of the optional observers the caller supplied. *)
Record AudioManagerCallbacks : Type := {
  onStatusChange : bool;
  onAudioActivity : bool;
  onError : bool
}.

(** Platform objects, reduced to the state this class reads or changes. *)
Inductive AudioContextState : Type := suspended | running | closed.
Inductive ReadyState : Type := CONNECTING | OPEN | CLOSING | CLOSED.

#[global] Instance AudioContextState_eq_dec : EqDecision AudioContextState.
Proof. solve_decision. Defined.
#[global] Instance ReadyState_eq_dec : EqDecision ReadyState.
Proof. solve_decision. Defined.

Record AudioContext : Type := { state : AudioContextState }.
Record WebSocket : Type := { readyState : ReadyState }.
Record MediaStream : Type := { trackCount : nat }.
(** [connected]: wired as Source -> Worklet -> Destination. *)
Record AudioWorkletNode : Type := { connected : bool }.

(** An ArrayBuffer seen through [new Float32Array(data)]: its 32-bit
    little-endian float words, and the [byteLength mod 4] bytes left over. *)
Record ArrayBuffer : Type := { samples : list float; spareBytes : Z }.

(** [event.data] of a WebSocket message ([binaryType = 'arraybuffer']). *)
Inductive MessageData : Type :=
| BinaryData (data : ArrayBuffer)
| TextData (text : string).

Inductive effect : Type :=
| StatusChanged (status : ConnectionStatus)     (* callbacks.onStatusChange   *)
| AudioActivity (level : float)                 (* callbacks.onAudioActivity  *)
| ErrorReported (message : option Json.value)   (* callbacks.onError          *)
| ConsoleLog (text : string)
| ConsoleLogSent (chunks : Z) (rms : float)     (* the every-100-chunks line  *)
| ConsoleError (text : string) (e : option exn)
| PortPost (m : PCMProcessor.message)           (* workletNode.port.postMessage *)
| SocketSendBinary (frame : list float)         (* websocket.send(buffer)     *)
| SocketSendText (payload : Json.value)         (* websocket.send(JSON.stringify(..)) *)
| SocketClose
| NodeDisconnect
| TracksStop
| ContextResume
| ContextClose
| ClearTimeout
| PromiseResolve
| PromiseReject.

Record t : Type := mk {
  audioContext : option AudioContext;
  workletNode : option AudioWorkletNode;
  stream : option MediaStream;
  websocket : option WebSocket;
  callbacks : AudioManagerCallbacks;
  status : ConnectionStatus;
  isRecording : bool;
(** the [let audioChunkCount] captured by the port handler *)
audioChunkCount : Z
}.

Definition M : Type -> Type := Eff.M t effect.

Definition set_audioContext v (s : t) : t :=
  mk v (workletNode s) (stream s) (websocket s) (callbacks s) (status s)
     (isRecording s) (audioChunkCount s).
Definition set_workletNode v (s : t) : t :=
  mk (audioContext s) v (stream s) (websocket s) (callbacks s) (status s)
     (isRecording s) (audioChunkCount s).
Definition set_stream v (s : t) : t :=
  mk (audioContext s) (workletNode s) v (websocket s) (callbacks s) (status s)
     (isRecording s) (audioChunkCount s).
Definition set_websocket v (s : t) : t :=
  mk (audioContext s) (workletNode s) (stream s) v (callbacks s) (status s)
     (isRecording s) (audioChunkCount s).
Definition set_status v (s : t) : t :=
  mk (audioContext s) (workletNode s) (stream s) (websocket s) (callbacks s) v
     (isRecording s) (audioChunkCount s).
Definition set_isRecording v (s : t) : t :=
  mk (audioContext s) (workletNode s) (stream s) (websocket s) (callbacks s)
     (status s) v (audioChunkCount s).
Definition set_audioChunkCount v (s : t) : t :=
  mk (audioContext s) (workletNode s) (stream s) (websocket s) (callbacks s)
     (status s) (isRecording s) v.

Definition no_callbacks : AudioManagerCallbacks :=
  {| onStatusChange := false; onAudioActivity := false; onError := false |}.

Definition constructor (cbs : option AudioManagerCallbacks) : t :=
  {| audioContext := None;
     workletNode := None;
     stream := None;
     websocket := None;
     callbacks := default no_callbacks cbs;
     status := disconnected;
     isRecording := false;
     audioChunkCount := 0 |}.

Definition of_outcome {A} (r : outcome A) : M A :=
  match r with
  | Normal a => ret a
  | Thrown e => throw e
  end.

Definition setStatus (st : ConnectionStatus) : M unit :=
  modify (set_status st) ;;
  s <- get ;;
  when (onStatusChange (callbacks s)) (emit (StatusChanged st)).

Definition handleJsonMessage (data : Json.value) : M unit :=
  ty <- of_outcome (Json.prop data "type") ;;
  if Json.is_string ty "status" then
    msg <- of_outcome (Json.prop data "message") ;;
    if Json.is_string msg "ready" then
      setStatus ready
    else if Json.is_string msg "user_speaking" then
      s <- get ;;
      when (bool_decide (is_Some (workletNode s))) (emit (PortPost PCMProcessor.Clear)) ;;
      setStatus ready
    else if Json.is_string msg "processing" then
      setStatus processing
    else if Json.is_string msg "done" then
      setStatus ready
    else if Json.is_string msg "history_cleared" then
      emit (ConsoleLog "Conversation history cleared")
    else ret tt
  else if Json.is_string ty "error" then
    setStatus error ;;
    msg <- of_outcome (Json.prop data "message") ;;
    s <- get ;;
    when (onError (callbacks s)) (emit (ErrorReported msg))
  else ret tt.

(** [new Float32Array(data)]: a byte length that is not a multiple of 4
    is a RangeError. *)
Definition new_Float32Array (data : ArrayBuffer) : M (list float) :=
  if decide (spareBytes data = 0) then ret (samples data) else throw RangeError.

Definition handleAudioData (data : ArrayBuffer) : M unit :=
  s <- get ;;
  match workletNode s with
  | None => ret tt
  | Some _ =>
      when (bool_decide (status s = ready)) (setStatus processing) ;;
      float32Data <- new_Float32Array data ;;
      emit (PortPost (PCMProcessor.Buffer float32Data))
  end.

Section WebSocketHandlers.
(** [JSON.parse]: the parsed value, or [None] where it throws a
    SyntaxError. *)
Variable JSON_parse : string -> option Json.value.

(** [this.websocket.onmessage] *)
Definition websocket_onmessage (event : MessageData) : M unit :=
  match event with
  | BinaryData data => handleAudioData data
  | TextData text =>
      try_catch
        (data <- match JSON_parse text with
                 | Some v => ret v
                 | None => throw SyntaxError
                 end ;;
         handleJsonMessage data ;;
         ty <- of_outcome (Json.prop data "type") ;;
         msg <- of_outcome (Json.prop data "message") ;;
         when (Json.is_string ty "status" && Json.is_string msg "ready")
              (emit ClearTimeout ;; setStatus ready ;; emit PromiseResolve))
        (fun e => emit (ConsoleError "Failed to parse message:" (Some e)))
  end.
End WebSocketHandlers.

(** [this.websocket.onerror] *)
Definition websocket_onerror : M unit :=
  emit (ConsoleError "WebSocket error:" None) ;;
  setStatus error ;;
  s <- get ;;
  when (onError (callbacks s))
       (emit (ErrorReported (Some (Json.String "WebSocket connection failed")))) ;;
  emit ClearTimeout ;;
  emit PromiseReject.

(** [this.websocket.onclose] *)
Definition websocket_onclose : M unit :=
  emit (ConsoleLog "WebSocket closed") ;;
  setStatus disconnected.

(** The RMS loop [for (i = 0; i < inputData.length; i += 10) sum += x*x]:
    [skip] is the number of elements to pass over before the next index
    that is a multiple of 10. *)
Fixpoint sum_squares (skip : nat) (inputData : list float) (sum : float) : float :=
  match inputData with
  | [] => sum
  | x :: rest =>
      match skip with
      | O => sum_squares 9 rest (sum + x * x)%float
      | S k => sum_squares k rest sum
      end
  end.

Definition number_of_length (a : list float) : float :=
  PrimFloat.of_uint63 (Uint63.of_Z (Z.of_nat (length a))).

(** [Math.sqrt(sum / (inputData.length / 10))] *)
Definition rms (inputData : list float) : float :=
  PrimFloat.sqrt (sum_squares 0 inputData 0 / (number_of_length inputData / 10))%float.

(** [this.workletNode.port.onmessage], installed by [startRecording]. *)
Definition worklet_onmessage (event : PCMProcessor.posted) : M unit :=
  match event with
  | PCMProcessor.Input inputData =>
      let level := rms inputData in
      s <- get ;;
      when (onAudioActivity (callbacks s)) (emit (AudioActivity level)) ;;
      match websocket s with
      | Some ws =>
          when (bool_decide (readyState ws = OPEN) && isRecording s)
            (emit (SocketSendBinary inputData) ;;
             modify (fun s => set_audioChunkCount (audioChunkCount s + 1) s) ;;
             s' <- get ;;
             when (Z.rem (audioChunkCount s') 100 =? 0)
                  (emit (ConsoleLogSent (audioChunkCount s') level)))
      | None => ret tt
      end
  end.

(** [startRecording]; [microphone] is what [getUserMedia] resolves to,
    [None] when it rejects. *)
Definition startRecording (microphone : option MediaStream) : M unit :=
  emit (ConsoleLog "[AudioManager] startRecording called") ;;
  s <- get ;;
  match audioContext s, websocket s with
  | Some ctx, Some _ =>
      when (bool_decide (state ctx = suspended))
           (emit (ConsoleLog "[AudioManager] Resuming suspended AudioContext") ;;
            emit ContextResume ;;
            modify (set_audioContext (Some {| state := running |}))) ;;
      emit (ConsoleLog "[AudioManager] Requesting microphone access...") ;;
      media <- match microphone with
               | Some m => ret m
               | None => throw (Rejected "getUserMedia")
               end ;;
      modify (set_stream (Some media)) ;;
      modify (set_workletNode (Some {| connected := false |})) ;;
      modify (set_audioChunkCount 0) ;;
      modify (set_workletNode (Some {| connected := true |})) ;;
      modify (set_isRecording true) ;;
      emit (ConsoleLog "[AudioManager] Recording started, isRecording:")
  | _, _ => throw (Error "AudioManager not initialized")
  end.

Definition stopRecording : M unit := modify (set_isRecording false).

Definition resumeRecording : M unit := modify (set_isRecording true).

Definition sendCommand (command : string) : M unit :=
  s <- get ;;
  match websocket s with
  | Some ws =>
      when (bool_decide (readyState ws = OPEN))
           (emit (SocketSendText (Json.Object [("command", Json.String command)])))
  | None => ret tt
  end.

Definition interrupt : M unit :=
  sendCommand "interrupt" ;;
  s <- get ;;
  when (bool_decide (is_Some (workletNode s))) (emit (PortPost PCMProcessor.Clear)).

Definition stop : M unit :=
  modify (set_isRecording false) ;;
  s <- get ;;
  when (bool_decide (is_Some (stream s)))
       (emit TracksStop ;; modify (set_stream None)) ;;
  when (bool_decide (is_Some (workletNode s)))
       (emit NodeDisconnect ;; modify (set_workletNode None)) ;;
  when (bool_decide (is_Some (websocket s)))
       (emit SocketClose ;; modify (set_websocket None)) ;;
  when (bool_decide (is_Some (audioContext s)))
       (emit ContextClose ;; modify (set_audioContext None)) ;;
  setStatus disconnected.

Definition getStatus (s : t) : ConnectionStatus := status s.

(** The levels a handler reported to the audio-activity observer, in order. *)
Definition activity_levels (out : list effect) : list float :=
  omap (fun e => match e with AudioActivity l => Some l | _ => None end) out.

(** The elements of a frame that the RMS loop visits: indices 0, 10, 20, ... *)
Definition strided (inputData : list float) : list float :=
  omap (fun i => inputData !! (10 * i)%nat) (seq 0 (length inputData)).

(** [data.type === 'status' && data.message === m] holds of a parsed value. *)
Definition is_status_message (data : Json.value) (m : string) : Prop :=
  Json.prop data "type" = Normal (Some (Json.String "status"))
  /\ Json.prop data "message" = Normal (Some (Json.String m)).

(** The messages a handler posted to the worklet port, in order. *)
Definition port_messages (out : list effect) : list PCMProcessor.message :=
  omap (fun e => match e with PortPost m => Some m | _ => None end) out.

(** The capture frames a handler sent on the socket, in order. *)
Definition sent_frames (out : list effect) : list (list float) :=
  omap (fun e => match e with SocketSendBinary f => Some f | _ => None end) out.

(** *** The remaining methods *)

Definition clearHistory : M unit := sendCommand "clear_history".

Definition forceProcess : M unit := sendCommand "force_process".

Definition setLiveTalkingSession (sessionId : float) : M unit :=
  s <- get ;;
  match websocket s with
  | Some ws =>
      when (bool_decide (readyState ws = OPEN))
           (emit (SocketSendText
                    (Json.Object [("command", Json.String "set_livetalking_session");
                                  ("sessionId", Json.Number sessionId)])))
  | None => ret tt
  end.

(** What the browser offers when [initialize] runs: the state a new
    AudioContext starts in, whether it has an [audioWorklet], and whether
    loading the worklet module succeeds. *)
Record Browser : Type := {
  contextState : AudioContextState;
  audioWorklet : bool;
  addModule : bool
}.

(** [initialize(wsUrl)] up to the point where it waits for the promise of
    [connectWebSocket]: the socket has been created and is connecting.
    The [catch] block of [initialize] handles what fails before that. *)
Definition initialize_open (browser : Browser) : M unit :=
  setStatus connecting ;;
  try_catch
    (modify (set_audioContext (Some {| state := contextState browser |})) ;;
     when (negb (audioWorklet browser))
          (throw (Error "AudioWorklet not supported in this browser")) ;;
     (if addModule browser then ret tt else throw (Rejected "addModule")) ;;
     modify (set_websocket (Some {| readyState := CONNECTING |})))
    (fun e => setStatus error ;; throw e).

(** The [catch] block of [initialize] when the promise of
    [connectWebSocket] rejects with [e] (socket error, or timeout). *)
Definition initialize_rejected (e : exn) : M unit :=
  setStatus error ;; throw e.

(** The callback of the 5-minute timer of [connectWebSocket]. *)
Definition websocket_timeout : M unit := emit PromiseReject.

(** [this.websocket.onopen] *)
Definition websocket_onopen : M unit := emit (ConsoleLog "WebSocket connected").

(** The browser updates [readyState] of the socket that [this.websocket]
    refers to before it fires the corresponding event. *)
Definition socket_becomes (r : ReadyState) : M unit :=
  modify (fun s => set_websocket ((fun _ => {| readyState := r |}) <$> websocket s) s).

(** *** Everything that can happen to a manager

    Events delivered by the browser and calls made by the owner, one
    JavaScript task each: an exception ends the task it is thrown in and
    nothing else. *)
Inductive event : Type :=
| Opened                                   (* socket open event          *)
| Received (data : MessageData)            (* socket message event       *)
| SocketFailed                             (* socket error event         *)
| SocketClosed                             (* socket close event         *)
| Captured (m : PCMProcessor.posted)       (* worklet port message       *)
| CallStartRecording (microphone : option MediaStream)
| CallStopRecording
| CallResumeRecording
| CallSendCommand (command : string)
| CallClearHistory
| CallInterrupt
| CallForceProcess
| CallSetLiveTalkingSession (sessionId : float)
| CallStop.

Definition dispatch (JSON_parse : string -> option Json.value) (ev : event) : M unit :=
  match ev with
  | Opened => socket_becomes OPEN ;; websocket_onopen
  | Received data => websocket_onmessage JSON_parse data
  | SocketFailed => websocket_onerror
  | SocketClosed => socket_becomes CLOSED ;; websocket_onclose
  | Captured m => worklet_onmessage m
  | CallStartRecording microphone => startRecording microphone
  | CallStopRecording => stopRecording
  | CallResumeRecording => resumeRecording
  | CallSendCommand command => sendCommand command
  | CallClearHistory => clearHistory
  | CallInterrupt => interrupt
  | CallForceProcess => forceProcess
  | CallSetLiveTalkingSession sessionId => setLiveTalkingSession sessionId
  | CallStop => stop
  end.

Fixpoint run_events (JSON_parse : string -> option Json.value)
    (evs : list event) (s : t) : t * list effect :=
  match evs with
  | [] => (s, [])
  | ev :: evs' =>
      let '(_, s1, out1) := dispatch JSON_parse ev s in
      let '(s2, out2) := run_events JSON_parse evs' s1 in
      (s2, out1 ++ out2)
  end.

(** The control messages a handler sent on the socket, in order. *)
Definition sent_texts (out : list effect) : list Json.value :=
  omap (fun e => match e with SocketSendText v => Some v | _ => None end) out.

(** The capture frames among a list of events, and the sample blocks of
    the well-formed binary payloads among them, in order. *)
Definition captured_frames (evs : list event) : list (list float) :=
  omap (fun ev => match ev with Captured (PCMProcessor.Input f) => Some f | _ => None end) evs.

Definition received_blocks (evs : list event) : list (list float) :=
  omap (fun ev => match ev with Received (BinaryData d) => Some (samples d) | _ => None end) evs.

(** The sample blocks posted to the worklet port, in order. *)
Definition posted_blocks (out : list effect) : list (list float) :=
  omap (fun e => match e with PortPost (PCMProcessor.Buffer b) => Some b | _ => None end) out.

Definition starts_recording (ev : event) : bool :=
  match ev with CallStartRecording _ => true | _ => false end.

Definition resumes_recording (ev : event) : bool :=
  match ev with CallStartRecording _ | CallResumeRecording => true | _ => false end.

(** The statuses a handler reported to the status observer, in order. *)
Definition notified_statuses (out : list effect) : list ConnectionStatus :=
  omap (fun e => match e with StatusChanged st => Some st | _ => None end) out.

(** How the promise of [connectWebSocket] was settled by a handler:
    [true] for each [resolve()], [false] for each [reject(..)], in order. *)
Definition promise_settlements (out : list effect) : list bool :=
  omap (fun e => match e with
                 | PromiseResolve => Some true
                 | PromiseReject => Some false
                 | _ => None
                 end) out.

(** The worklet processor after the messages posted to its port have
    been delivered. *)
Definition deliver (p : PCMProcessor.t) (out : list effect) : PCMProcessor.t :=
  foldl PCMProcessor.onmessage p (port_messages out).

(** *** Sample wire texts

    The status messages of the protocol as the server writes them,
    [{"type":"status","message":m}], and a parser that knows exactly these
    texts; it stands in for [JSON.parse] in the examples. *)

Definition dquote : string := String.String (Ascii.ascii_of_nat 34) EmptyString.

Definition quoted (s : string) : string := dquote +:+ s +:+ dquote.

Definition status_text (m : string) : string :=
  "{" +:+ quoted "type" +:+ ":" +:+ quoted "status" +:+ ","
      +:+ quoted "message" +:+ ":" +:+ quoted m +:+ "}".

Definition status_value (m : string) : Json.value :=
  Json.Object [("type", Json.String "status"); ("message", Json.String m)].

(** Sample states: the fields once [initialize] has created the audio
    context and the socket has opened (the status is still [connecting]),
    and a call in progress after [startRecording]. *)
Definition all_callbacks : AudioManagerCallbacks :=
  {| onStatusChange := true; onAudioActivity := true; onError := true |}.

Definition socket_opened : t :=
  {| audioContext := Some {| state := running |};
     workletNode := None;
     stream := None;
     websocket := Some {| readyState := OPEN |};
     callbacks := all_callbacks;
     status := connecting;
     isRecording := false;
     audioChunkCount := 0 |}.

Definition in_call : t :=
  {| audioContext := Some {| state := running |};
     workletNode := Some {| connected := true |};
     stream := Some {| trackCount := 1 |};
     websocket := Some {| readyState := OPEN |};
     callbacks := all_callbacks;
     status := ready;
     isRecording := true;
     audioChunkCount := 0 |}.

Definition parse_status_text (text : string) : option Json.value :=
  status_value <$>
    list_find (fun m => text = status_text m)
      ["ready"; "user_speaking"; "processing"; "done"; "history_cleared"]
    ≫= (fun p => Some (snd p)).

End AudioManager.

(** ** Tactics for running the handlers of [AudioManager] symbolically *)

Module HandlerTactics.
Import Eff AudioManager.

Ltac run_handler :=
  unfold dispatch, websocket_onmessage, handleAudioData, new_Float32Array,
    websocket_onerror, websocket_onclose, websocket_onopen, socket_becomes,
    worklet_onmessage, startRecording, stopRecording, resumeRecording,
    clearHistory, forceProcess, interrupt, sendCommand, setLiveTalkingSession,
    stop, setStatus, try_catch, bind, modify, get, when, emit, ret, throw,
    state_of, effects_of, result_of;
  cbn -[Z.rem Z.eqb rms].

Ltac split_cond :=
  match goal with
  | |- context [match ?x with _ => _ end] =>
      lazymatch x with
      | context [match _ with _ => _ end] => fail
      | _ => destruct x eqn:?
      end
  end.

Ltac run_cases :=
  run_handler; try done;
  repeat (split_cond; cbn -[Z.rem Z.eqb rms] in *; try done).

End HandlerTactics.

(** ** useTransparentVideo.ts: class WebGLVideoRenderer (layout detection) *)

Module WebGLVideoRenderer.

Inductive program : Type := programSBS | programNormal.

Inductive effect : Type :=
| SetupProgram (p : program)                          (* this.setupProgram(..) *)
| ConsoleLog (sideBySide : bool) (videoW videoH canvasW canvasH : Z).

(** [videoWidth] and [videoHeight] are [unsigned long] attributes that the
    decoder sets; the renderer only reads them. *)
Record HTMLVideoElement : Type := { videoWidth : Z; videoHeight : Z }.

(** The canvas size and the private fields that [checkSideBySide] uses.
    [canvas.width] and [canvas.height] are [unsigned long] attributes. *)
Record t : Type := mk {
  canvas_width : Z;
  canvas_height : Z;
  _isSideBySide : bool;
  formatDetected : bool;
  lastVideoWidth : Z;
  lastVideoHeight : Z
}.

Definition constructor (canvasW canvasH : Z) : t :=
  {| canvas_width := canvasW;
     canvas_height := canvasH;
     _isSideBySide := false;
     formatDetected := false;
     lastVideoWidth := 0;
     lastVideoHeight := 0 |}.

(** An [unsigned long] read as a JavaScript number. *)
Definition number (z : Z) : float := PrimFloat.of_uint63 (Uint63.of_Z z).

(** [this.video.videoWidth / this.video.videoHeight] *)
Definition aspectRatio (video : HTMLVideoElement) : float :=
  (number (videoWidth video) / number (videoHeight video))%float.

(** [aspectRatio > 1.8] *)
Definition exceeds_threshold (video : HTMLVideoElement) : bool :=
  (1.8 <? aspectRatio video)%float.

(** [checkSideBySide()].  Storing [videoWidth / 2] in [canvas.width]
    converts the number to [unsigned long], which drops the fraction:
    the stored width is the integer quotient. *)
Definition checkSideBySide (video : HTMLVideoElement) (s : t) : t * list effect :=
  if bool_decide (videoWidth video > 0) && bool_decide (videoHeight video > 0) then
    let dimensionsChanged :=
      bool_decide (videoWidth video <> lastVideoWidth s)
      || bool_decide (videoHeight video <> lastVideoHeight s) in
    if formatDetected s && negb dimensionsChanged then (s, [])
    else if exceeds_threshold video then
      ({| canvas_width := videoWidth video / 2;
          canvas_height := videoHeight video;
          _isSideBySide := true;
          formatDetected := true;
          lastVideoWidth := videoWidth video;
          lastVideoHeight := videoHeight video |},
       [SetupProgram programSBS;
        ConsoleLog true (videoWidth video) (videoHeight video)
                   (videoWidth video / 2) (videoHeight video)])
    else
      ({| canvas_width := videoWidth video;
          canvas_height := videoHeight video;
          _isSideBySide := false;
          formatDetected := true;
          lastVideoWidth := videoWidth video;
          lastVideoHeight := videoHeight video |},
       [SetupProgram programNormal;
        ConsoleLog false (videoWidth video) (videoHeight video)
                   (videoWidth video) (videoHeight video)])
  else (s, []).

(** The state after a run of render ticks, one decoded frame size each. *)
Definition render_frames (s : t) (frames : list HTMLVideoElement) : t :=
  foldl (fun s video => fst (checkSideBySide video s)) s frames.

(** The [isSideBySide] getter. *)
Definition isSideBySide (s : t) : bool := _isSideBySide s.

End WebGLVideoRenderer.

(** ** useTransparentVideo.ts: class WebGLVideoRenderer (set-up and render loop)

    The rest of the class, around the layout detection above: [init],
    [render], [start], [stop] and [destroy], together with the browser's
    list of requested animation frames, which the loop lives in. *)

Module RenderLoop.
Import Eff Eff.Notations.

(** How the creation of a shader or program ends: it is built, the
    [create...] call returns null, or compiling / linking fails. *)
Inductive build : Type := Built | NoObject | Broken.

(** What the graphics stack does during one [init]. *)
Record Graphics : Type := {
  getContext : bool;
  vertexShader : build;
  fragmentShaderSBS : build;
  fragmentShaderNormal : build;
  linkSBS : build;
  linkNormal : build;
  createBuffer : bool;          (* [false]: the call returns null *)
  createTexture : bool
}.

(** The console lines of the class, by the place they are written at. *)
Inductive line : Type :=
| InitStarted | ContextFailed | ContextCreated | ShaderFailed | LinkFailed
| ProgramsCreated | InitDone | RenderingStarted | RenderingStopped.

(** The calls that show in the properties below; calls that only set
    graphics state ([clearColor], [bindTexture], [useProgram], ...) and
    the creation calls of [init] are not recorded. *)
Inductive effect : Type :=
| Console (l : line)
| DeleteShader
| Detection (e : WebGLVideoRenderer.effect)      (* inside [checkSideBySide] *)
| Viewport (width height : Z)
| ClearCanvas
| UploadFrame                                     (* texImage2D(.., this.video) *)
| DrawQuad                                        (* drawArrays(TRIANGLE_STRIP, 0, 4) *)
| RequestAnimationFrame (handle : Z)
| CancelAnimationFrame (handle : Z)
| DeleteTexture
| DeleteBuffer
| DeleteProgram (p : WebGLVideoRenderer.program).

(** The fields of the renderer; a graphics object is [true] when the
    field is not null. *)
Record renderer : Type := mkRenderer {
  layout : WebGLVideoRenderer.t;
  gl : bool;
  programSBS : bool;
  programNormal : bool;
  texture : bool;
  buffer : bool;
  animationFrameId : option Z;
  isInitialized : bool
}.

(** The renderer and the browser's animation frames: the next handle
    [requestAnimationFrame] returns, and the handles requested and not
    yet run or cancelled.  Every requested callback is [this.render]. *)
Record t : Type := mk {
  this : renderer;
  nextHandle : Z;
  requested : list Z
}.

Definition M : Type -> Type := Eff.M t effect.

Definition constructor (canvasW canvasH : Z) : renderer :=
  {| layout := WebGLVideoRenderer.constructor canvasW canvasH;
     gl := false; programSBS := false; programNormal := false;
     texture := false; buffer := false;
     animationFrameId := None; isInitialized := false |}.

Definition update (f : renderer -> renderer) : M unit :=
  modify (fun w => mk (f (this w)) (nextHandle w) (requested w)).

Definition set_layout v (r : renderer) : renderer :=
  mkRenderer v (gl r) (programSBS r) (programNormal r) (texture r) (buffer r)
             (animationFrameId r) (isInitialized r).
Definition set_gl v (r : renderer) : renderer :=
  mkRenderer (layout r) v (programSBS r) (programNormal r) (texture r) (buffer r)
             (animationFrameId r) (isInitialized r).
Definition set_programs sbs normal (r : renderer) : renderer :=
  mkRenderer (layout r) (gl r) sbs normal (texture r) (buffer r)
             (animationFrameId r) (isInitialized r).
Definition set_resources tex buf (r : renderer) : renderer :=
  mkRenderer (layout r) (gl r) (programSBS r) (programNormal r) tex buf
             (animationFrameId r) (isInitialized r).
Definition set_animationFrameId v (r : renderer) : renderer :=
  mkRenderer (layout r) (gl r) (programSBS r) (programNormal r) (texture r) (buffer r)
             v (isInitialized r).
Definition set_isInitialized v (r : renderer) : renderer :=
  mkRenderer (layout r) (gl r) (programSBS r) (programNormal r) (texture r) (buffer r)
             (animationFrameId r) v.

(** [this.animationFrameId = requestAnimationFrame(this.render)] *)
Definition schedule : M unit :=
  w <- get ;;
  modify (fun w => mk (set_animationFrameId (Some (nextHandle w)) (this w))
                      (nextHandle w + 1)
                      (requested w ++ [nextHandle w])) ;;
  emit (RequestAnimationFrame (nextHandle w)).

(** [compileShader]: the shader, or null. *)
Definition compileShader (b : build) : M bool :=
  match b with
  | Built => ret true
  | NoObject => ret false
  | Broken => emit (Console ShaderFailed) ;; emit DeleteShader ;; ret false
  end.

(** [createProgram]: the program, or null. *)
Definition createProgram (b : build) : M bool :=
  match b with
  | Built => ret true
  | NoObject => ret false
  | Broken => emit (Console LinkFailed) ;; ret false
  end.

Definition init (g : Graphics) : M bool :=
  emit (Console InitStarted) ;;
  if negb (getContext g) then emit (Console ContextFailed) ;; ret false
  else
    update (set_gl true) ;;
    emit (Console ContextCreated) ;;
    vs <- compileShader (vertexShader g) ;;
    if negb vs then ret false
    else
      fsSBS <- compileShader (fragmentShaderSBS g) ;;
      fsNormal <- compileShader (fragmentShaderNormal g) ;;
      if negb fsSBS || negb fsNormal then ret false
      else
        pSBS <- createProgram (linkSBS g) ;;
        pNormal <- createProgram (linkNormal g) ;;
        update (set_programs pSBS pNormal) ;;
        if negb pSBS || negb pNormal then ret false
        else
          emit (Console ProgramsCreated) ;;
          update (set_resources (createTexture g) (createBuffer g)) ;;
          update (set_isInitialized true) ;;
          emit (Console InitDone) ;;
          ret true.

(** [checkSideBySide()] on the renderer's layout fields. *)
Definition checkSideBySide (video : WebGLVideoRenderer.HTMLVideoElement) : M unit :=
  fun w =>
    let '(layout', out) := WebGLVideoRenderer.checkSideBySide video (layout (this w)) in
    (Normal tt, mk (set_layout layout' (this w)) (nextHandle w) (requested w),
     Detection <$> out).

(** [render]; [readyState] is [this.video.readyState]. *)
Definition render (video : WebGLVideoRenderer.HTMLVideoElement) (readyState : Z) : M unit :=
  w <- get ;;
  if negb (isInitialized (this w)) then schedule
  else if readyState <? 2 then schedule
  else
    checkSideBySide video ;;
    w' <- get ;;
    if negb (WebGLVideoRenderer.formatDetected (layout (this w'))) then schedule
    else
      emit (Viewport (WebGLVideoRenderer.canvas_width (layout (this w')))
                     (WebGLVideoRenderer.canvas_height (layout (this w')))) ;;
      emit ClearCanvas ;;
      emit UploadFrame ;;
      emit DrawQuad ;;
      schedule.

Definition start (g : Graphics) (video : WebGLVideoRenderer.HTMLVideoElement)
    (readyState : Z) : M bool :=
  w <- get ;;
  initialized <- (if isInitialized (this w) then ret true else init g) ;;
  if negb initialized then ret false
  else
    emit (Console RenderingStarted) ;;
    render video readyState ;;
    ret true.

(** [cancelAnimationFrame(handle)] takes the handle off the browser's list. *)
Definition cancel (handle : Z) : M unit :=
  modify (fun w => mk (this w) (nextHandle w)
                      (filter (fun h => h <> handle) (requested w))) ;;
  emit (CancelAnimationFrame handle).

Definition stop : M unit :=
  w <- get ;;
  match animationFrameId (this w) with
  | Some handle =>
      when (negb (handle =? 0))
           (cancel handle ;; update (set_animationFrameId None))
  | None => ret tt
  end ;;
  emit (Console RenderingStopped).

Definition destroy : M unit :=
  stop ;;
  w <- get ;;
  when (gl (this w))
       (when (texture (this w)) (emit DeleteTexture) ;;
        when (buffer (this w)) (emit DeleteBuffer) ;;
        when (programSBS (this w)) (emit (DeleteProgram WebGLVideoRenderer.programSBS)) ;;
        when (programNormal (this w))
             (emit (DeleteProgram WebGLVideoRenderer.programNormal))) ;;
  update (set_isInitialized false).

(** One display refresh: the browser runs the callbacks requested before
    it, oldest first; each is [this.render]. *)
Fixpoint run_callbacks (handles : list Z)
    (video : WebGLVideoRenderer.HTMLVideoElement) (readyState : Z) : M unit :=
  match handles with
  | [] => ret tt
  | _ :: handles' => render video readyState ;; run_callbacks handles' video readyState
  end.

Definition refresh (video : WebGLVideoRenderer.HTMLVideoElement) (readyState : Z) : M unit :=
  w <- get ;;
  modify (fun w => mk (this w) (nextHandle w) []) ;;
  run_callbacks (requested w) video readyState.

(** Display refreshes, one per decoded-frame description. *)
Fixpoint refreshes (frames : list (WebGLVideoRenderer.HTMLVideoElement * Z)) : M unit :=
  match frames with
  | [] => ret tt
  | (video, readyState) :: frames' => refresh video readyState ;; refreshes frames'
  end.

(** The quads drawn, the frames requested and the graphics objects
    deleted by an operation. *)
Definition draws (out : list effect) : nat :=
  length (omap (fun e => match e with DrawQuad => Some tt | _ => None end) out).

Definition requests (out : list effect) : list Z :=
  omap (fun e => match e with RequestAnimationFrame h => Some h | _ => None end) out.

Definition viewports (out : list effect) : list (Z * Z) :=
  omap (fun e => match e with Viewport w h => Some (w, h) | _ => None end) out.

(** The canvas size that goes with a decoded frame size: half the width
    for a side-by-side frame. *)
Definition canvas_for (video : WebGLVideoRenderer.HTMLVideoElement) : Z * Z :=
  (if WebGLVideoRenderer.exceeds_threshold video
   then WebGLVideoRenderer.videoWidth video / 2
   else WebGLVideoRenderer.videoWidth video,
   WebGLVideoRenderer.videoHeight video).

(** The layout fields agree with the frame size detected last. *)
Definition layout_agrees (l : WebGLVideoRenderer.t) : Prop :=
  WebGLVideoRenderer.formatDetected l = true ->
  WebGLVideoRenderer._isSideBySide l
  = WebGLVideoRenderer.exceeds_threshold
      {| WebGLVideoRenderer.videoWidth := WebGLVideoRenderer.lastVideoWidth l;
         WebGLVideoRenderer.videoHeight := WebGLVideoRenderer.lastVideoHeight l |}
  /\ WebGLVideoRenderer.canvas_width l
     = (if WebGLVideoRenderer._isSideBySide l
        then WebGLVideoRenderer.lastVideoWidth l / 2
        else WebGLVideoRenderer.lastVideoWidth l)
  /\ WebGLVideoRenderer.canvas_height l = WebGLVideoRenderer.lastVideoHeight l.

(** Every step of [init] succeeds. *)
Definition supported (g : Graphics) : bool :=
  getContext g
  && match vertexShader g, fragmentShaderSBS g, fragmentShaderNormal g,
           linkSBS g, linkNormal g with
     | Built, Built, Built, Built, Built => true
     | _, _, _, _, _ => false
     end.

End RenderLoop.

(** ** The LiveTalking WebRTC manager: class LiveTalkingWebRTC *)

Module LiveTalkingWebRTC.
Import Eff Eff.Notations.

(** The server URL and which of the optional observers are supplied. *)
Record LiveTalkingConfig : Type := {
  serverUrl : string;
  onVideoTrack : bool;
  onAudioTrack : bool;
  onConnectionStateChange : bool;
  onError : bool
}.

Record RTCPeerConnection : Type := {
  transceivers : list string;
  hasLocalDescription : bool;
  hasRemoteDescription : bool
}.

(** The JSON body of the answer to [POST /offer]:
    [{sdp, type, sessionid, code?, msg?}]. *)
Record Answer : Type := {
  code : option Json.value;
  msg : option string;
  sdp : string;
  type : string;
  sessionid : float
}.

Record Response : Type := {
  ok : bool;
  status : Z;
  json : option Answer          (* [None]: [response.json()] rejects *)
}.

(** What the platform and the server do during one [connect()]. *)
Record Exchange : Type := {
  createOffer : bool;           (* the promise resolves *)
  setLocalDescription : bool;   (* the promise resolves *)
  fetch : option Response;      (* [None]: the request itself fails *)
  setRemoteDescription : bool   (* the promise resolves *)
}.

Inductive effect : Type :=
| ConsoleLog (text : string)
| ConsoleError (text : string) (e : exn)
| ErrorReported (message : string)       (* config.onError(String(error)) *)
| PostOffer (url : string)
| PostInterrupt (url : string) (session : float)
| PeerClose.

Record t : Type := mk {
  config : LiveTalkingConfig;
  peerConnection : option RTCPeerConnection;
  sessionId : float
}.

Definition M : Type -> Type := Eff.M t effect.

Definition constructor (cfg : LiveTalkingConfig) : t :=
  {| config := cfg; peerConnection := None; sessionId := 0%float |}.

Definition set_peerConnection v (s : t) : t := mk (config s) v (sessionId s).
Definition set_sessionId v (s : t) : t := mk (config s) (peerConnection s) v.

(** A platform promise: continue when it resolves, throw when it rejects. *)
Definition await (resolves : bool) (what : string) : M unit :=
  if resolves then ret tt else throw (Rejected what).

(** [data.code === -1] *)
Definition code_is_minus_one (data : Answer) : bool :=
  match code data with
  | Some (Json.Number x) => (x =? -1)%float
  | _ => false
  end.

(** [data.msg || 'LiveTalking connection failed'] *)
Definition failure_message (data : Answer) : string :=
  match msg data with
  | Some m => if String.eqb m "" then "LiveTalking connection failed" else m
  | None => "LiveTalking connection failed"
  end.

(** [waitForIceGathering()] resolves on completion or after 3 s, whichever
    comes first; it never rejects. *)
Definition waitForIceGathering : M unit := ret tt.

Definition update_peer (f : RTCPeerConnection -> RTCPeerConnection) : M unit :=
  modify (fun s => set_peerConnection (f <$> peerConnection s) s).

Definition connect (x : Exchange) : M float :=
  try_catch
    (modify (set_peerConnection
               (Some {| transceivers := [];
                        hasLocalDescription := false;
                        hasRemoteDescription := false |})) ;;
     update_peer (fun pc =>
       {| transceivers := ["video"; "audio"];
          hasLocalDescription := hasLocalDescription pc;
          hasRemoteDescription := hasRemoteDescription pc |}) ;;
     await (createOffer x) "createOffer" ;;
     await (setLocalDescription x) "setLocalDescription" ;;
     update_peer (fun pc =>
       {| transceivers := transceivers pc;
          hasLocalDescription := true;
          hasRemoteDescription := hasRemoteDescription pc |}) ;;
     waitForIceGathering ;;
     s <- get ;;
     emit (PostOffer (serverUrl (config s) +:+ "/offer")) ;;
     response <- match fetch x with
                 | Some r => ret r
                 | None => throw (Rejected "fetch")
                 end ;;
     when (negb (ok response))
          (throw (Error ("LiveTalking offer failed: " +:+ pretty (status response)))) ;;
     data <- match json response with
             | Some d => ret d
             | None => throw (Rejected "json")
             end ;;
     when (code_is_minus_one data) (throw (Error (failure_message data))) ;;
     await (setRemoteDescription x) "setRemoteDescription" ;;
     update_peer (fun pc =>
       {| transceivers := transceivers pc;
          hasLocalDescription := hasLocalDescription pc;
          hasRemoteDescription := true |}) ;;
     modify (set_sessionId (sessionid data)) ;;
     emit (ConsoleLog "[LiveTalking] Connected, sessionId:") ;;
     s' <- get ;;
     ret (sessionId s'))
    (fun e =>
       emit (ConsoleError "[LiveTalking] Connection error:" e) ;;
       s <- get ;;
       when (onError (config s)) (emit (ErrorReported (exn_to_string e))) ;;
       throw e).

Definition getSessionId (s : t) : float := sessionId s.

(** The server refuses the offer: a non-success HTTP status, or a body
    with [code === -1]. *)
Definition refused (response : Response) : bool :=
  negb (ok response)
  || match json response with
     | Some data => code_is_minus_one data
     | None => false
     end.

(** A successful exchange, with the answer it carries: every platform
    promise resolves and the server answers with a success status and a
    JSON body whose code is not -1. *)
Definition successful (x : Exchange) : option Answer :=
  if createOffer x && setLocalDescription x && setRemoteDescription x then
    match fetch x with
    | Some response =>
        if refused response then None else json response
    | None => None
    end
  else None.

(** [interrupt()]; [delivered] tells whether the request goes through. *)
Definition interrupt (delivered : bool) : M unit :=
  s <- get ;;
  if (sessionId s =? 0)%float then ret tt
  else
    try_catch
      (emit (PostInterrupt (serverUrl (config s) +:+ "/interrupt_talk") (sessionId s)) ;;
       await delivered "fetch")
      (fun e => emit (ConsoleError "[LiveTalking] Interrupt error:" e)).

Definition close : M unit :=
  s <- get ;;
  when (bool_decide (is_Some (peerConnection s)))
       (emit PeerClose ;; modify (set_peerConnection None)) ;;
  modify (set_sessionId 0%float) ;;
  emit (ConsoleLog "[LiveTalking] Connection closed").

(** The URLs an operation posted an offer to, the texts it gave to the
    error observer, and the closes of a peer connection, in order. *)
Definition offers_posted (out : list effect) : list string :=
  omap (fun e => match e with PostOffer url => Some url | _ => None end) out.

Definition errors_reported (out : list effect) : list string :=
  omap (fun e => match e with ErrorReported m => Some m | _ => None end) out.

Definition peer_closes (out : list effect) : list unit :=
  omap (fun e => match e with PeerClose => Some tt | _ => None end) out.

Definition interrupts_posted (out : list effect) : list (string * float) :=
  omap (fun e => match e with PostInterrupt url id => Some (url, id) | _ => None end) out.

End LiveTalkingWebRTC.

(** * Properties *)

(** ** The ring buffer *)

Module RingBuffer.
Import PCMProcessor.

Lemma mod_wrap (x c : Z) :
  0 < c -> 0 <= x < 2 * c -> x mod c = if decide (x < c) then x else x - c.
Proof.
  intros Hc Hx. destruct (decide (x < c)) as [Hlt|Hge].
  - apply Z.mod_small. lia.
  - symmetry. apply (Z.mod_unique_pos x c 1). lia. lia.
Qed.

Lemma rem_is_mod (x c : Z) : 0 <= x -> 0 < c -> Z.rem x c = x mod c.
Proof. intros. apply Z.rem_mod_nonneg; lia. Qed.

Lemma length_pending (s : t) :
  length (pending s) = Z.to_nat (availableSamples s).
Proof. unfold pending. by rewrite length_fmap, length_seqZ. Qed.

Lemma wf_constructor : wf constructor.
Proof.
  unfold constructor.
  split; cbn [bufferSize buffer writeIndex readIndex availableSamples]; try lia.
  - unfold Float32Array.make. by rewrite length_replicate.
  - reflexivity.
Qed.

Lemma pending_constructor : pending constructor = [].
Proof. reflexivity. Qed.

(** *** One sample written *)

Lemma write_sample_full (s : t) (x : float) :
  ¬ availableSamples s < bufferSize s -> write_sample s x = s.
Proof. intros H. unfold write_sample. by rewrite decide_False. Qed.

Lemma write_sample_wf (s : t) (x : float) : wf s -> wf (write_sample s x).
Proof.
  intros [Hc Hb Hr Hw Ha Hcur]. unfold write_sample.
  destruct (decide (availableSamples s < bufferSize s)) as [Hlt|]; [|by split].
  assert (Hrem : Z.rem (writeIndex s + 1) (bufferSize s)
                 = (writeIndex s + 1) mod bufferSize s)
    by (apply rem_is_mod; lia).
  split; simpl; try lia.
  - unfold Float32Array.set. rewrite decide_True by lia. by rewrite length_insert.
  - rewrite Hrem. apply Z.mod_pos_bound. lia.
  - rewrite Hrem, Hcur, Z.add_mod_idemp_l by lia. f_equal. lia.
Qed.

Lemma write_sample_pending (s : t) (x : float) :
  wf s -> availableSamples s < bufferSize s ->
  pending (write_sample s x) = pending s ++ [x].
Proof.
  intros [Hc Hb Hr Hw Ha Hcur] Hlt. unfold write_sample, pending.
  rewrite decide_True by done. simpl.
  rewrite (seqZ_app 0 (availableSamples s) 1) by lia.
  rewrite fmap_app. f_equal.
  - apply Forall_fmap_ext, Forall_forall. intros j Hj.
    apply elem_of_seqZ in Hj. unfold slot; simpl. f_equal.
    rewrite rem_is_mod by lia.
    unfold Float32Array.get, Float32Array.set.
    pose proof (Z.mod_pos_bound (readIndex s + j) (bufferSize s) Hc).
    rewrite !decide_True by lia.
    apply list_lookup_insert_ne.
    rewrite Hcur.
    pose proof (mod_wrap (readIndex s + j) (bufferSize s)) as E1.
    pose proof (mod_wrap (readIndex s + availableSamples s) (bufferSize s)) as E2.
    rewrite E1, E2 by lia. repeat case_decide; lia.
  - simpl. unfold slot; simpl. f_equal.
    replace (readIndex s + (Z.of_nat 0 + (0 + availableSamples s)))
      with (readIndex s + availableSamples s) by lia.
    rewrite rem_is_mod by lia. rewrite <- Hcur.
    unfold Float32Array.get, Float32Array.set.
    rewrite !decide_True by lia. simpl.
    rewrite list_lookup_insert_eq by lia. done.
Qed.

(** *** One sample read *)

Lemma read_sample_empty (s : t) :
  ¬ availableSamples s > 0 -> read_sample s = (s, 0%float).
Proof. intros H. unfold read_sample. by rewrite decide_False. Qed.

Lemma read_sample_wf (s : t) : wf s -> wf (fst (read_sample s)).
Proof.
  intros [Hc Hb Hr Hw Ha Hcur]. unfold read_sample.
  destruct (decide (availableSamples s > 0)) as [Hgt|]; [|by split].
  assert (Hrem : Z.rem (readIndex s + 1) (bufferSize s)
                 = (readIndex s + 1) mod bufferSize s)
    by (apply rem_is_mod; lia).
  split; simpl; try lia.
  - rewrite Hrem. apply Z.mod_pos_bound. lia.
  - rewrite Hrem, Hcur, Z.add_mod_idemp_l by lia. f_equal. lia.
Qed.

Lemma read_sample_pending (s : t) :
  wf s -> availableSamples s > 0 ->
  pending s = snd (read_sample s) :: pending (fst (read_sample s)).
Proof.
  intros [Hc Hb Hr Hw Ha Hcur] Hgt. unfold read_sample, pending.
  rewrite decide_True by done. simpl.
  rewrite (seqZ_cons 0) by lia. rewrite fmap_cons. f_equal.
  - unfold slot. rewrite Z.add_0_r, rem_is_mod, Z.mod_small by lia. done.
  - rewrite <- (fmap_add_seqZ 1 0), <- list_fmap_compose.
    replace (Z.pred (availableSamples s)) with (availableSamples s - 1) by lia.
    apply Forall_fmap_ext, Forall_forall. intros j Hj.
    apply elem_of_seqZ in Hj. unfold slot, compose; simpl. do 2 f_equal.
    rewrite (rem_is_mod (readIndex s + 1)) by lia.
    pose proof (Z.mod_pos_bound (readIndex s + 1) (bufferSize s) Hc).
    rewrite !rem_is_mod by lia.
    rewrite Z.add_mod_idemp_l by lia. f_equal. lia.
Qed.

(** *** The loops *)

Lemma bufferSize_write_sample (s : t) (x : float) :
  bufferSize (write_sample s x) = bufferSize s.
Proof. unfold write_sample. by case_decide. Qed.

Lemma bufferSize_write_loop (data : list float) (s : t) :
  bufferSize (write_loop s data) = bufferSize s.
Proof.
  revert s. induction data as [|x data IH]; intros s; [done|].
  unfold write_loop in *. simpl. by rewrite IH, bufferSize_write_sample.
Qed.

Lemma bufferSize_read_sample (s : t) :
  bufferSize (fst (read_sample s)) = bufferSize s.
Proof. unfold read_sample. by case_decide. Qed.

Lemma read_loop_S (s : t) (n : nat) :
  read_loop s (S n) =
  (fst (read_loop (fst (read_sample s)) n),
   snd (read_sample s) :: snd (read_loop (fst (read_sample s)) n)).
Proof.
  simpl. destruct (read_sample s) as [s1 x]. simpl.
  by destruct (read_loop s1 n).
Qed.

Lemma bufferSize_read_loop (n : nat) (s : t) :
  bufferSize (fst (read_loop s n)) = bufferSize s.
Proof.
  revert s. induction n as [|n IH]; intros s; [done|].
  rewrite read_loop_S. simpl. by rewrite IH, bufferSize_read_sample.
Qed.

Lemma write_loop_wf (data : list float) (s : t) : wf s -> wf (write_loop s data).
Proof.
  revert s. induction data as [|x data IH]; intros s Hs; [done|].
  apply IH. by apply write_sample_wf.
Qed.

Lemma write_loop_app (s : t) (a b : list float) :
  write_loop s (a ++ b) = write_loop (write_loop s a) b.
Proof. apply foldl_app. Qed.

(** A write appends as many samples as there is room for, and nothing else
    changes in what is waiting to be played. *)
Lemma write_loop_pending (data : list float) (s : t) :
  wf s ->
  pending (write_loop s data)
  = pending s ++ take (Z.to_nat (bufferSize s - availableSamples s)) data.
Proof.
  revert s. induction data as [|x data IH]; intros s Hs.
  - by rewrite take_nil, app_nil_r.
  - change (write_loop s (x :: data)) with (write_loop (write_sample s x) data).
    rewrite IH by by apply write_sample_wf.
    rewrite bufferSize_write_sample.
    destruct (decide (availableSamples s < bufferSize s)) as [Hlt|Hge].
    + rewrite write_sample_pending by done.
      unfold write_sample. rewrite decide_True by done. simpl.
      replace (Z.to_nat (bufferSize s - availableSamples s))
        with (S (Z.to_nat (bufferSize s - (availableSamples s + 1)))) by lia.
      by rewrite <- app_assoc.
    + rewrite write_sample_full by done.
      by replace (Z.to_nat (bufferSize s - availableSamples s)) with 0%nat by lia.
Qed.

Lemma read_loop_wf (n : nat) (s : t) : wf s -> wf (fst (read_loop s n)).
Proof.
  revert s. induction n as [|n IH]; intros s Hs; [done|].
  rewrite read_loop_S. apply IH. by apply read_sample_wf.
Qed.

(** A read of [n] frames plays the [n] oldest waiting samples, padded with
    silence, and leaves the others waiting. *)
Lemma read_loop_pending (n : nat) (s : t) :
  wf s ->
  snd (read_loop s n)
  = take n (pending s) ++ replicate (n - length (pending s)) 0%float
  ∧ pending (fst (read_loop s n)) = drop n (pending s).
Proof.
  revert s. induction n as [|n IH]; intros s Hs.
  - by rewrite take_0, drop_0.
  - rewrite read_loop_S. cbn [fst snd].
    destruct (IH (fst (read_sample s)) (read_sample_wf s Hs)) as [IH1 IH2].
    rewrite IH1, IH2.
    destruct (decide (availableSamples s > 0)) as [Hgt|Hle].
    + rewrite (read_sample_pending s Hs Hgt). done.
    + rewrite read_sample_empty by done. cbn [fst snd].
      assert (pending s = []) as ->.
      { apply length_zero_iff_nil. rewrite length_pending.
        destruct Hs. lia. }
      rewrite !take_nil, !drop_nil. cbn [length app].
      by rewrite !Nat.sub_0_r.
Qed.

Lemma available_pending (s : t) :
  wf s -> availableSamples s = Z.of_nat (length (pending s)).
Proof. intros Hs. rewrite length_pending. destruct Hs. lia. Qed.

Lemma clear_wf (s : t) : 0 < bufferSize s ->
  length (buffer s) = Z.to_nat (bufferSize s) -> wf (onmessage s Clear).
Proof. intros Hc Hb. split; simpl; try done; try lia. Qed.

Lemma onmessage_wf (s : t) (e : message) : wf s -> wf (onmessage s e).
Proof.
  intros Hs. destruct e; simpl; [by apply write_loop_wf| |done].
  destruct Hs. by apply clear_wf.
Qed.

Lemma step_wf (s : t) (o : op) : wf s -> wf (step s o).
Proof.
  intros Hs. destruct o; simpl; [by apply onmessage_wf|by apply read_loop_wf].
Qed.

Lemma bufferSize_step (s : t) (o : op) : bufferSize (step s o) = bufferSize s.
Proof.
  destruct o as [[data| |]|n]; simpl; try done.
  - apply bufferSize_write_loop.
  - apply bufferSize_read_loop.
Qed.

Lemma run_wf (ops : list op) (s : t) : wf s -> wf (run s ops).
Proof.
  revert s. induction ops as [|o ops IH]; intros s Hs; [done|].
  apply IH. by apply step_wf.
Qed.

Lemma bufferSize_run (ops : list op) (s : t) : bufferSize (run s ops) = bufferSize s.
Proof.
  revert s. induction ops as [|o ops IH]; intros s; [done|].
  unfold run in *. simpl. by rewrite IH, bufferSize_step.
Qed.

(** *** Refinement: the cursors and the array implement the bounded queue *)

Lemma step_refines (s : t) (o : op) :
  wf s -> bufferSize s = RingBufferSpec.capacity ->
  pending (step s o) = RingBufferSpec.step (pending s) o.
Proof.
  intros Hs Hcap. destruct o as [[data| |]|n]; simpl.
  - rewrite write_loop_pending by done. unfold RingBufferSpec.write.
    do 2 f_equal. rewrite length_pending, Hcap. destruct Hs. lia.
  - done.
  - done.
  - by apply read_loop_pending.
Qed.

Lemma run_refines (ops : list op) (s : t) :
  wf s -> bufferSize s = RingBufferSpec.capacity ->
  pending (run s ops) = RingBufferSpec.run (pending s) ops.
Proof.
  revert s. induction ops as [|o ops IH]; intros s Hs Hcap; [done|].
  unfold run, RingBufferSpec.run in *. simpl.
  rewrite IH; [by rewrite step_refines|by apply step_wf|by rewrite bufferSize_step].
Qed.

Lemma drain_read_loop (frames : list nat) (s : t) :
  drain s frames = read_loop s (sum_list frames).
Proof.
  revert s. induction frames as [|n frames IH]; intros s; [done|].
  simpl. destruct (read_loop s n) as [s1 out1] eqn:E1.
  rewrite IH. clear IH. revert s s1 out1 E1.
  induction n as [|n IHn]; intros s s1 out1 E1.
  - simpl in *. injection E1 as <- <-. by destruct (read_loop s (sum_list frames)).
  - rewrite read_loop_S in E1. injection E1 as <- <-.
    change (S n + sum_list frames)%nat with (S (n + sum_list frames)).
    rewrite read_loop_S.
    specialize (IHn (fst (read_sample s)) _ _ (surjective_pairing _)).
    destruct (read_loop (fst (read_loop (fst (read_sample s)) n)) (sum_list frames)).
    by rewrite <- IHn.
Qed.

Lemma length_read_loop (n : nat) (s : t) : length (snd (read_loop s n)) = n.
Proof.
  revert s. induction n as [|n IH]; intros s; [done|].
  rewrite read_loop_S. simpl. by rewrite IH.
Qed.

Lemma copy_channels_same_length (filled : list float) (rest : list (list float)) :
  Forall (fun c => length c = length filled) rest ->
  copy_channels filled rest = Some ((fun _ => filled) <$> rest).
Proof.
  induction 1 as [|c rest Hc _ IH]; [done|].
  simpl. unfold typed_set_from. rewrite decide_True by lia.
  rewrite IH, drop_ge, app_nil_r by lia. done.
Qed.

(** [process] on a well-formed output bus (all channels of one render
    quantum have the same number of frames) returns [true], with every
    channel holding what the playback loop produced. *)
Lemma process_returns (s : t) (inputs : list (list (list float)))
    (ch : list float) (rest : list (list float)) (others : list (list (list float))) :
  Forall (fun c => length c = length ch) rest ->
  process s inputs ((ch :: rest) :: others)
  = (fst (read_loop s (length ch)), capture inputs,
     Returns true ((snd (read_loop s (length ch))
                    :: ((fun _ => snd (read_loop s (length ch))) <$> rest)) :: others)).
Proof.
  intros Hrest. unfold process.
  destruct (read_loop s (length ch)) as [s' filled] eqn:E. simpl.
  assert (length filled = length ch) as Hlen.
  { by rewrite <- (length_read_loop (length ch) s), E. }
  rewrite copy_channels_same_length; [done|].
  eapply Forall_impl; [exact Hrest|]. simpl. intros c Hc. by rewrite Hlen.
Qed.

Lemma run_app (s : t) (ops1 ops2 : list op) :
  run s (ops1 ++ ops2) = run (run s ops1) ops2.
Proof. apply foldl_app. Qed.

Lemma run_writes (chunks : list (list float)) (s : t) :
  run s ((fun c => Msg (Buffer c)) <$> chunks) = write_loop s (concat chunks).
Proof.
  revert s. induction chunks as [|c chunks IH]; intros s; [done|].
  simpl. rewrite write_loop_app, <- IH. done.
Qed.

Lemma read_sample_idle (s : t) :
  availableSamples s = 0 -> read_sample s = (s, 0%float).
Proof. intros H. apply read_sample_empty. lia. Qed.

Lemma read_loop_idle (n : nat) (s : t) :
  availableSamples s = 0 -> read_loop s n = (s, replicate n 0%float).
Proof.
  intros H. induction n as [|n IH]; [done|].
  rewrite read_loop_S, read_sample_idle by done. simpl. by rewrite IH.
Qed.

Lemma step_idle (s : t) (o : op) :
  availableSamples s = 0 -> is_write o = false -> availableSamples (step s o) = 0.
Proof.
  intros H Hw. destruct o as [[data| |]|n]; simpl in *; try done.
  by rewrite read_loop_idle.
Qed.

Lemma run_idle (ops : list op) (s : t) :
  availableSamples s = 0 -> forallb (fun o => negb (is_write o)) ops = true ->
  availableSamples (run s ops) = 0.
Proof.
  revert s. induction ops as [|o ops IH]; intros s H Hw; [done|].
  simpl in Hw. apply andb_prop in Hw as [Ho Hw].
  apply IH; [|done]. apply step_idle; [done|]. by destruct (is_write o).
Qed.

(** *** The properties of the specification *)

(** C1. For every sequence of operations on the ring buffer created by the
    constructor (buffer messages, clear messages, other messages and
    render quanta, in any order), the capacity is 24000 * 5 = 120000,
    [availableSamples] is in [0, capacity], [writeIndex] and [readIndex]
    are in [0, capacity), and the next advance of either cursor is by one
    modulo the capacity. *)
Theorem cursors_stay_in_range (ops : list op) :
  let s := run constructor ops in
  bufferSize s = 120000
  ∧ 0 <= availableSamples s <= 120000
  ∧ 0 <= writeIndex s < 120000
  ∧ 0 <= readIndex s < 120000
  ∧ (∀ x, writeIndex (write_sample s x)
          = if decide (availableSamples s < 120000)
            then (writeIndex s + 1) mod 120000 else writeIndex s)
  ∧ readIndex (fst (read_sample s))
    = if decide (availableSamples s > 0)
      then (readIndex s + 1) mod 120000 else readIndex s.
Proof.
  intros s.
  assert (Hcap : bufferSize s = 120000) by apply bufferSize_run.
  destruct (run_wf ops constructor wf_constructor) as [Hc Hb Hr Hw Ha Hcur].
  fold s in Hc, Hb, Hr, Hw, Ha, Hcur. rewrite Hcap in *.
  repeat split; try lia.
  - intros x. unfold write_sample. rewrite Hcap.
    case_decide; [|done]. simpl. apply rem_is_mod; lia.
  - unfold read_sample. case_decide; [|done]. simpl.
    rewrite Hcap. apply rem_is_mod; lia.
Qed.

(** C2. Starting from an empty ring buffer (the one the constructor makes,
    or any state reached from it in which nothing is available), when
    buffer messages carrying capacity + k samples in all (k > 0) have been
    received, exactly capacity samples are available, they are the first
    capacity samples written, in order, and draining them (in render
    quanta of any sizes that add up to the capacity) plays exactly those
    and leaves the buffer empty.  A sample arriving while the buffer is
    full changes nothing, and in every reachable state a write keeps what
    is waiting to be played as it is, adding at most the new sample after
    it. *)
Theorem overflow_drops_newest (before : list op) (chunks : list (list float)) (k : Z) :
  availableSamples (run constructor before) = 0 ->
  0 < k ->
  Z.of_nat (length (concat chunks)) = 120000 + k ->
  let s := run (run constructor before) ((fun c => Msg (Buffer c)) <$> chunks) in
  availableSamples s = 120000
  ∧ pending s = take (Z.to_nat 120000) (concat chunks)
  ∧ (∀ frames, sum_list frames = Z.to_nat 120000 ->
       snd (drain s frames) = take (Z.to_nat 120000) (concat chunks)
       ∧ availableSamples (fst (drain s frames)) = 0)
  ∧ (∀ x, write_sample s x = s)
  ∧ (∀ ops x, let r := run constructor ops in
       pending (write_sample r x)
       = pending r ++ (if decide (availableSamples r < bufferSize r) then [x] else [])).
Proof.
  intros Hempty Hk Hlen s.
  set (s0 := run constructor before) in *.
  assert (Hwf0 : wf s0) by apply run_wf, wf_constructor.
  assert (Hcap0 : bufferSize s0 = 120000) by apply bufferSize_run.
  assert (Hwf : wf s) by by apply run_wf.
  assert (Hp : pending s = take (Z.to_nat 120000) (concat chunks)).
  { unfold s. rewrite run_writes, write_loop_pending by done.
    assert (pending s0 = []) as ->.
    { apply length_zero_iff_nil. rewrite length_pending. lia. }
    rewrite Hcap0, Hempty. done. }
  assert (Ha : availableSamples s = 120000).
  { rewrite (available_pending s Hwf), Hp, length_take. lia. }
  split; [done|]. split; [done|]. split; [|split].
  - intros frames Hsum. rewrite drain_read_loop, Hsum.
    destruct (read_loop_pending (Z.to_nat 120000) s Hwf) as [Hout Hrest].
    split.
    + rewrite Hout, Hp, take_take, Nat.min_id, length_take.
      replace (Z.to_nat 120000 - _)%nat with 0%nat by lia.
      apply app_nil_r.
    + rewrite (available_pending _ (read_loop_wf _ _ Hwf)), Hrest, length_drop.
      rewrite length_pending. lia.
  - intros x. apply write_sample_full.
    assert (bufferSize s = 120000) by (unfold s; by rewrite bufferSize_run). lia.
  - intros ops x r.
    assert (Hr : wf r) by apply run_wf, wf_constructor.
    case_decide.
    + by apply write_sample_pending.
    + rewrite write_sample_full by done. by rewrite app_nil_r.
Qed.

Lemma overflow_drops_newest_witness :
  let chunks := [replicate (Z.to_nat 120000) 1%float; [2%float]] in
  let s := run (run constructor []) ((fun c => Msg (Buffer c)) <$> chunks) in
  availableSamples s = 120000
  ∧ pending s = take (Z.to_nat 120000) (concat chunks).
Proof.
  intros chunks s.
  destruct (overflow_drops_newest [] chunks 1) as (Ha & Hp & _).
  - vm_compute. reflexivity.
  - lia.
  - vm_compute. reflexivity.
  - split; assumption.
Defined.

(** C3. In every ring-buffer state that satisfies the data-model invariant
    and has fewer than [n] samples available, one [process] call on an
    output whose channels have [n] frames returns normally with [true],
    fills every channel with the waiting samples, oldest first, followed
    by [n - availableSamples] zeros, and leaves [availableSamples] at 0. *)
Theorem underrun_pads_with_silence (s : t) (n : nat)
    (inputs : list (list (list float))) (ch : list float)
    (rest : list (list float)) (others : list (list (list float))) :
  wf s ->
  availableSamples s < Z.of_nat n ->
  length ch = n ->
  Forall (fun c => length c = n) rest ->
  let played := pending s ++ replicate (n - Z.to_nat (availableSamples s)) 0%float in
  snd (read_loop s n) = played
  ∧ availableSamples (fst (read_loop s n)) = 0
  ∧ process s inputs ((ch :: rest) :: others)
    = (fst (read_loop s n), capture inputs,
       Returns true ((played :: ((fun _ => played) <$> rest)) :: others)).
Proof.
  intros Hwf Hlt Hch Hrest played.
  destruct (read_loop_pending n s Hwf) as [Hout Hafter].
  assert (Hplayed : snd (read_loop s n) = played).
  { rewrite Hout, take_ge, length_pending; [done|]. rewrite length_pending. lia. }
  split; [done|]. split.
  - rewrite (available_pending _ (read_loop_wf _ _ Hwf)), Hafter, length_drop.
    rewrite length_pending. lia.
  - subst n. rewrite process_returns by done. by rewrite Hplayed.
Qed.

Lemma underrun_pads_with_silence_witness :
  let s := run constructor [Msg (Buffer [1; 2; 3]%float)] in
  let quantum := replicate 5 0%float in
  snd (read_loop s 5) = [1; 2; 3; 0; 0]%float
  ∧ availableSamples (fst (read_loop s 5)) = 0
  ∧ process s [] [[quantum; quantum]]
    = (fst (read_loop s 5), [],
       Returns true [[[1; 2; 3; 0; 0]; [1; 2; 3; 0; 0]]]%float).
Proof.
  intros s quantum.
  refine (underrun_pads_with_silence s 5 [] quantum [quantum] [] _ _ _ _).
  - apply run_wf, wf_constructor.
  - vm_compute. reflexivity.
  - vm_compute. reflexivity.
  - repeat constructor.
Defined.

(** C4. From any state, a clear message sets [writeIndex], [readIndex] and
    [availableSamples] to 0, and as long as no buffer message arrives
    (whatever render quanta, clear messages or other messages come in
    between) every read returns zeros only and nothing becomes available. *)
Theorem clear_then_silence (s : t) (ops : list op) (n : nat) :
  forallb (fun o => negb (is_write o)) ops = true ->
  let c := onmessage s Clear in
  writeIndex c = 0 ∧ readIndex c = 0 ∧ availableSamples c = 0
  ∧ read_loop (run c ops) n = (run c ops, replicate n 0%float)
  ∧ availableSamples (run c ops) = 0.
Proof.
  intros Hops c. repeat split.
  - apply read_loop_idle. by apply run_idle.
  - by apply run_idle.
Qed.

Lemma clear_then_silence_witness :
  let s := run constructor [Msg (Buffer [1; 2; 3]%float)] in
  let c := onmessage s Clear in
  let ops := [Render 2; Msg Clear; Msg Unknown] in
  writeIndex c = 0 ∧ readIndex c = 0 ∧ availableSamples c = 0
  ∧ read_loop (run c ops) 4 = (run c ops, replicate 4 0%float)
  ∧ availableSamples (run c ops) = 0.
Proof.
  intros s c ops.
  apply (clear_then_silence s ops 4).
  reflexivity.
Defined.

End RingBuffer.

(** ** The duplex audio session *)

Module Session.
Import Eff AudioManager.

Lemma setStatus_run (st : ConnectionStatus) (s : t) :
  setStatus st s
  = (Normal tt, set_status st s,
     if onStatusChange (callbacks s) then [StatusChanged st] else []).
Proof.
  unfold setStatus, bind, modify, get, when, emit, ret. simpl.
  by destruct (onStatusChange (callbacks s)).
Qed.

Lemma is_string_eq (m lit : string) :
  Json.is_string (Some (Json.String m)) lit = bool_decide (m = lit).
Proof.
  simpl. destruct (String.eqb_spec m lit).
  - by rewrite bool_decide_eq_true_2.
  - by rewrite bool_decide_eq_false_2.
Qed.

(** [handleJsonMessage] on [{type:'status', message:'done'}]. *)
Lemma handleJsonMessage_done (data : Json.value) (s : t) :
  is_status_message data "done" ->
  handleJsonMessage data s
  = (Normal tt, set_status ready s,
     if onStatusChange (callbacks s) then [StatusChanged ready] else []).
Proof.
  intros [Hty Hmsg]. unfold handleJsonMessage, bind, of_outcome.
  rewrite Hty. simpl. rewrite Hmsg. simpl.
  by rewrite setStatus_run.
Qed.

(** [handleJsonMessage] on [{type:'status', message:'user_speaking'}]. *)
Lemma handleJsonMessage_user_speaking (data : Json.value) (s : t) :
  is_status_message data "user_speaking" ->
  handleJsonMessage data s
  = (Normal tt, set_status ready s,
     match workletNode s with
     | Some _ => [PortPost PCMProcessor.Clear]
     | None => []
     end
     ++ (if onStatusChange (callbacks s) then [StatusChanged ready] else [])).
Proof.
  intros [Hty Hmsg]. unfold handleJsonMessage, bind, of_outcome.
  rewrite Hty. simpl. rewrite Hmsg. simpl.
  unfold get, when, emit, ret.
  destruct (workletNode s) as [node|] eqn:Hnode; simpl.
  - by rewrite setStatus_run.
  - by rewrite setStatus_run.
Qed.

(** A text that parses to a status message other than ['ready'] is
    handled by [handleJsonMessage] alone. *)
Lemma websocket_onmessage_status (JSON_parse : string -> option Json.value)
    (text m : string) (data : Json.value) (s s' : t) (out : list effect) :
  JSON_parse text = Some data ->
  is_status_message data m ->
  m <> "ready" ->
  handleJsonMessage data s = (Normal tt, s', out) ->
  websocket_onmessage JSON_parse (TextData text) s = (Normal tt, s', out).
Proof.
  intros Hparse [Hty Hmsg] Hm Hrun.
  unfold websocket_onmessage, try_catch, bind. rewrite Hparse. simpl.
  rewrite Hrun. unfold of_outcome. rewrite Hty, Hmsg. simpl.
  destruct (String.eqb_spec m "ready") as [->|_]; [done|].
  simpl. by rewrite app_nil_r.
Qed.

Lemma handleAudioData_no_worklet (data : ArrayBuffer) (s : t) :
  workletNode s = None -> handleAudioData data s = (Normal tt, s, []).
Proof. intros H. unfold handleAudioData, bind, get. simpl. by rewrite H. Qed.

Lemma handleAudioData_status (data : ArrayBuffer) (s : t) (node : AudioWorkletNode) :
  workletNode s = Some node ->
  status (state_of (handleAudioData data s))
  = if decide (status s = ready) then processing else status s.
Proof.
  intros H. unfold handleAudioData, bind, get. simpl. rewrite H.
  unfold when, new_Float32Array.
  destruct (decide (status s = ready)) as [Hr|Hr].
  - rewrite bool_decide_eq_true_2, setStatus_run by done.
    by destruct (decide (spareBytes data = 0)).
  - rewrite bool_decide_eq_false_2 by done.
    by destruct (decide (spareBytes data = 0)).
Qed.

(** C5, as the code has it.  From [ready], a binary audio payload moves
    the status to [processing] when the playback worklet node exists; when
    it does not exist, or from any other status, the status is unchanged.
    A [{type:'status', message:'done'}] message moves the status to
    [ready] from [processing] (and from every other status).  A
    [{type:'status', message:'user_speaking'}] message moves every status
    to [ready]; it posts exactly one clear command to the worklet port
    when the worklet node exists, which empties the ring buffer, and posts
    nothing when it does not exist.  All three handlers return normally
    on these messages, the binary one provided the payload is a whole
    number of 32-bit words. *)
Theorem status_transitions (JSON_parse : string -> option Json.value) (s : t)
    (payload : ArrayBuffer) (done_text speaking_text : string)
    (done_msg speaking_msg : Json.value) :
  JSON_parse done_text = Some done_msg ->
  is_status_message done_msg "done" ->
  JSON_parse speaking_text = Some speaking_msg ->
  is_status_message speaking_msg "user_speaking" ->
  let receive e := websocket_onmessage JSON_parse e s in
  status (state_of (receive (BinaryData payload)))
  = match workletNode s with
    | Some _ => if decide (status s = ready) then processing else status s
    | None => status s
    end
  ∧ result_of (receive (BinaryData payload))
    = match workletNode s with
      | Some _ => if decide (spareBytes payload = 0) then Normal tt else Thrown RangeError
      | None => Normal tt
      end
  ∧ status (state_of (receive (TextData done_text))) = ready
  ∧ result_of (receive (TextData done_text)) = Normal tt
  ∧ status (state_of (receive (TextData speaking_text))) = ready
  ∧ result_of (receive (TextData speaking_text)) = Normal tt
  ∧ port_messages (effects_of (receive (TextData speaking_text)))
    = match workletNode s with
      | Some _ => [PCMProcessor.Clear]
      | None => []
      end
  ∧ (∀ p, is_Some (workletNode s) ->
       PCMProcessor.availableSamples
         (foldl PCMProcessor.onmessage p
            (port_messages (effects_of (receive (TextData speaking_text))))) = 0).
Proof.
  intros Hd Hdone Hs Hspeaking receive. unfold receive.
  rewrite (websocket_onmessage_status _ _ _ _ _ _ _ Hd Hdone ltac:(done)
             (handleJsonMessage_done _ s Hdone)).
  rewrite (websocket_onmessage_status _ _ _ _ _ _ _ Hs Hspeaking ltac:(done)
             (handleJsonMessage_user_speaking _ s Hspeaking)).
  cbn [websocket_onmessage].
  split; [|split].
  - destruct (workletNode s) as [node|] eqn:Hnode.
    + by apply handleAudioData_status with node.
    + by rewrite handleAudioData_no_worklet.
  - destruct (workletNode s) as [node|] eqn:Hnode.
    + unfold handleAudioData, bind, get. simpl. rewrite Hnode.
      unfold when, new_Float32Array.
      destruct (bool_decide (status s = ready)); [rewrite setStatus_run|];
        by destruct (decide (spareBytes payload = 0)).
    + by rewrite handleAudioData_no_worklet.
  - unfold state_of, result_of, effects_of. cbn [fst snd].
    repeat split.
    + destruct (workletNode s), (onStatusChange (callbacks s)); done.
    + intros p [node Hnode]. rewrite Hnode.
      destruct (onStatusChange (callbacks s)); done.
Qed.

Lemma status_transitions_witness :
  let receive e := websocket_onmessage parse_status_text e in_call in
  status (state_of (receive (BinaryData {| samples := [0.5; 0.25]%float; spareBytes := 0 |})))
  = processing
  ∧ status (state_of (receive (TextData (status_text "done")))) = ready
  ∧ status (state_of (receive (TextData (status_text "user_speaking")))) = ready
  ∧ port_messages (effects_of (receive (TextData (status_text "user_speaking"))))
    = [PCMProcessor.Clear].
Proof.
  intros receive.
  destruct (status_transitions parse_status_text in_call
              {| samples := [0.5; 0.25]%float; spareBytes := 0 |}
              (status_text "done") (status_text "user_speaking")
              (status_value "done") (status_value "user_speaking"))
    as (Hbin & _ & Hdone & _ & Hspeak & _ & Hclear & _).
  - vm_compute. reflexivity.
  - split; reflexivity.
  - vm_compute. reflexivity.
  - split; reflexivity.
  - split; [exact Hbin | split; [exact Hdone | split; [exact Hspeak | exact Hclear]]].
Defined.

(** C5 as stated fails.  Once the server has said [ready] and before
    [startRecording] has created the worklet node, the status is [ready],
    and yet a binary audio payload leaves it [ready], and a
    ['user_speaking'] message posts no clear command. *)
Lemma ready_without_worklet_stays_ready :
  let s := state_of (websocket_onmessage parse_status_text
                       (TextData (status_text "ready")) socket_opened) in
  let payload := {| samples := [0.5; 0.25]%float; spareBytes := 0 |} in
  status s = ready
  ∧ status (state_of (websocket_onmessage parse_status_text (BinaryData payload) s))
    <> processing
  ∧ port_messages
      (effects_of (websocket_onmessage parse_status_text
                     (TextData (status_text "user_speaking")) s)) = [].
Proof.
  intros s payload. split; [|split].
  - vm_compute. reflexivity.
  - vm_compute. discriminate.
  - vm_compute. reflexivity.
Qed.

(** C6. A text that [JSON.parse] rejects is logged and dropped: the handler
    returns normally, its only effect is the console error carrying the
    SyntaxError, and no field of the session changes, so the status is the
    same and the socket is neither closed nor replaced. *)
Theorem malformed_text_dropped (JSON_parse : string -> option Json.value)
    (text : string) (s : t) :
  JSON_parse text = None ->
  websocket_onmessage JSON_parse (TextData text) s
  = (Normal tt, s, [ConsoleError "Failed to parse message:" (Some SyntaxError)]).
Proof.
  intros Hparse. unfold websocket_onmessage, try_catch, bind.
  by rewrite Hparse.
Qed.

Lemma malformed_text_dropped_witness :
  websocket_onmessage parse_status_text (TextData "{type:status") in_call
  = (Normal tt, in_call, [ConsoleError "Failed to parse message:" (Some SyntaxError)]).
Proof.
  apply (malformed_text_dropped parse_status_text "{type:status" in_call).
  vm_compute. reflexivity.
Defined.

(** *** Recording gate *)

Lemma omap_pointwise {A B} (f g : A -> option B) (l : list A) :
  (∀ x, f x = g x) -> omap f l = omap g l.
Proof.
  intros Hfg. induction l as [|x l IH]; [done|].
  csimpl. by rewrite Hfg, IH.
Qed.

Lemma omap_seq_S {B} (f : nat -> option B) (j n : nat) :
  omap f (seq (S j) n) = omap (fun i => f (S i)) (seq j n).
Proof.
  revert j. induction n as [|n IH]; intros j; [done|].
  csimpl. by rewrite IH.
Qed.

Lemma sum_squares_indices (a : list float) (k : nat) (acc : float) :
  (k <= 9)%nat ->
  sum_squares k a acc
  = foldl (fun sum x => (sum + x * x)%float) acc
      (omap (fun i => a !! (k + 10 * i)%nat) (seq 0 (length a))).
Proof.
  revert k acc. induction a as [|x a IH]; intros k acc Hk; [done|].
  destruct k as [|k]; cbn [sum_squares].
  - rewrite IH by lia.
    change (seq 0 (length (x :: a))) with ([0] ++ seq 1 (length a))%nat.
    rewrite omap_app, omap_seq_S.
    change (omap (fun i => (x :: a) !! (0 + 10 * i)%nat) [0%nat]) with [x].
    cbn [app foldl]. f_equal. apply omap_pointwise. intros i.
    by replace (0 + 10 * S i)%nat with (S (9 + 10 * i)) by lia.
  - rewrite IH by lia.
    change (length (x :: a)) with (S (length a)).
    rewrite seq_S, omap_app.
    change (omap (fun i => (x :: a) !! (S k + 10 * i)%nat) [(0 + length a)%nat])
      with (from_option (fun y => [y]) [] (a !! (k + 10 * (0 + length a))%nat)).
    rewrite (lookup_ge_None_2 a) by lia.
    cbn [from_option]. rewrite app_nil_r. f_equal.
Qed.

(** The RMS loop adds the squares of the elements at indices 0, 10, 20, ... *)
Lemma rms_strided (inputData : list float) :
  rms inputData
  = PrimFloat.sqrt
      (foldl (fun sum x => (sum + x * x)%float) 0%float (strided inputData)
       / (number_of_length inputData / 10))%float.
Proof. unfold rms, strided. by rewrite sum_squares_indices by lia. Qed.

Lemma worklet_onmessage_paused (frame : list float) (s : t) :
  isRecording s = false ->
  worklet_onmessage (PCMProcessor.Input frame) s
  = (Normal tt, s,
     if onAudioActivity (callbacks s) then [AudioActivity (rms frame)] else []).
Proof.
  intros Hrec. unfold worklet_onmessage, bind, get, when, emit, ret. simpl.
  destruct (onAudioActivity (callbacks s)), (websocket s) as [ws|]; try done;
    simpl; rewrite Hrec; by destruct (bool_decide (readyState ws = OPEN)).
Qed.

Lemma worklet_onmessage_levels (frame : list float) (s : t) :
  activity_levels (effects_of (worklet_onmessage (PCMProcessor.Input frame) s))
  = if onAudioActivity (callbacks s) then [rms frame] else [].
Proof.
  unfold worklet_onmessage, bind, get, when, emit, ret, modify. simpl.
  destruct (onAudioActivity (callbacks s)), (websocket s) as [ws|]; try done;
    simpl; destruct (bool_decide (readyState ws = OPEN)), (isRecording s);
    try done; simpl; by destruct (Z.rem (audioChunkCount s + 1) 100 =? 0).
Qed.

Lemma worklet_onmessage_sent (frame : list float) (s : t) :
  sent_frames (effects_of (worklet_onmessage (PCMProcessor.Input frame) s))
  = match websocket s with
    | Some ws =>
        if bool_decide (readyState ws = OPEN) && isRecording s then [frame] else []
    | None => []
    end.
Proof.
  unfold worklet_onmessage, bind, get, when, emit, ret, modify. simpl.
  destruct (onAudioActivity (callbacks s)), (websocket s) as [ws|]; try done;
    simpl; destruct (bool_decide (readyState ws = OPEN)), (isRecording s);
    try done; simpl; by destruct (Z.rem (audioChunkCount s + 1) 100 =? 0).
Qed.

(** C9. [stopRecording] only sets [isRecording] to false and
    [resumeRecording] only sets it to true: both return normally with no
    effect at all (nothing is stopped, disconnected or closed) and leave
    the audio context, the worklet node, the stream, the socket, the
    callbacks, the status and the chunk counter as they were.  While
    paused, a captured frame changes nothing in the session, is not sent,
    and is still reported to the audio-activity observer (when one is
    supplied) with its RMS level, computed from the elements at indices
    0, 10, 20, ...; the level is reported in the same way in every state.
    After resuming, the frame is sent again whenever the socket is open. *)
Theorem pause_gates_transmission_only (s : t) (frame : list float) :
  let paused := state_of (stopRecording s) in
  let resumed := state_of (resumeRecording paused) in
  stopRecording s = (Normal tt, set_isRecording false s, [])
  ∧ resumeRecording paused = (Normal tt, set_isRecording true s, [])
  ∧ (∀ b, audioContext (set_isRecording b s) = audioContext s
          ∧ workletNode (set_isRecording b s) = workletNode s
          ∧ stream (set_isRecording b s) = stream s
          ∧ websocket (set_isRecording b s) = websocket s
          ∧ callbacks (set_isRecording b s) = callbacks s
          ∧ status (set_isRecording b s) = status s
          ∧ audioChunkCount (set_isRecording b s) = audioChunkCount s
          ∧ isRecording (set_isRecording b s) = b)
  ∧ worklet_onmessage (PCMProcessor.Input frame) paused
    = (Normal tt, paused,
       if onAudioActivity (callbacks s) then [AudioActivity (rms frame)] else [])
  ∧ sent_frames (effects_of (worklet_onmessage (PCMProcessor.Input frame) paused)) = []
  ∧ rms frame
    = PrimFloat.sqrt
        (foldl (fun sum x => (sum + x * x)%float) 0%float (strided frame)
         / (number_of_length frame / 10))%float
  ∧ (∀ s', activity_levels (effects_of (worklet_onmessage (PCMProcessor.Input frame) s'))
           = if onAudioActivity (callbacks s') then [rms frame] else [])
  ∧ sent_frames (effects_of (worklet_onmessage (PCMProcessor.Input frame) resumed))
    = match websocket s with
      | Some ws => if bool_decide (readyState ws = OPEN) then [frame] else []
      | None => []
      end.
Proof.
  intros paused resumed.
  split; [done|]. split; [done|]. split; [done|]. split; [|split; [|split; [|split]]].
  - by rewrite worklet_onmessage_paused.
  - rewrite worklet_onmessage_sent. simpl. destruct (websocket s); [|done].
    by rewrite andb_false_r.
  - apply rms_strided.
  - intros s'. apply worklet_onmessage_levels.
  - rewrite worklet_onmessage_sent. simpl. destruct (websocket s); [|done].
    by rewrite andb_true_r.
Qed.

Lemma startRecording_creates_worklet (media : MediaStream) (s : t) :
  is_Some (audioContext s) ->
  is_Some (websocket s) ->
  result_of (startRecording (Some media) s) = Normal tt
  ∧ workletNode (state_of (startRecording (Some media) s)) = Some {| connected := true |}
  ∧ isRecording (state_of (startRecording (Some media) s)) = true
  ∧ status (state_of (startRecording (Some media) s)) = status s.
Proof.
  intros [ctx Hctx] [ws Hws].
  destruct s as [c n m w cb st r k]. simpl in *. subst c w.
  by destruct ctx as [[]].
Qed.

Lemma stop_clears_worklet (s : t) : workletNode (state_of (stop s)) = None.
Proof.
  destruct s as [[ctx|] [node|] [media|] [ws|] [[] ? ?] ? ? ?]; reflexivity.
Qed.

(** C10. While the worklet node does not exist, a binary audio payload is
    discarded: the handler returns normally, posts nothing to the worklet
    port (there is no effect at all) and changes no field, so the status
    stays what it was; in particular [ready] stays [ready].  The node does
    not exist in a newly constructed manager nor after [stop]. *)
Theorem audio_without_worklet_discarded (JSON_parse : string -> option Json.value)
    (s : t) (payload : ArrayBuffer) :
  workletNode s = None ->
  websocket_onmessage JSON_parse (BinaryData payload) s = (Normal tt, s, [])
  ∧ (∀ cbs, workletNode (constructor cbs) = None)
  ∧ (∀ s0, workletNode (state_of (stop s0)) = None).
Proof.
  intros Hnode. split; [|split].
  - by apply handleAudioData_no_worklet.
  - done.
  - apply stop_clears_worklet.
Qed.

Lemma audio_without_worklet_discarded_witness :
  let s := set_status ready socket_opened in
  let payload := {| samples := [0.5; 0.25]%float; spareBytes := 0 |} in
  websocket_onmessage parse_status_text (BinaryData payload) s = (Normal tt, s, [])
  ∧ status s = ready.
Proof.
  intros s payload. split; [|reflexivity].
  apply (audio_without_worklet_discarded parse_status_text s payload).
  reflexivity.
Defined.

End Session.

(** ** Layout detection *)

Module Layout.
Import WebGLVideoRenderer.

Lemma checkSideBySide_cached (video : HTMLVideoElement) (s : t) :
  formatDetected s = true ->
  lastVideoWidth s = videoWidth video ->
  lastVideoHeight s = videoHeight video ->
  checkSideBySide video s = (s, []).
Proof.
  intros Hd Hw Hh. unfold checkSideBySide.
  destruct (bool_decide (videoWidth video > 0) && bool_decide (videoHeight video > 0));
    [|done].
  rewrite Hd, !bool_decide_eq_false_2 by (intros H; by apply H). done.
Qed.

Lemma checkSideBySide_detects (video : HTMLVideoElement) (s : t) :
  videoWidth video > 0 ->
  videoHeight video > 0 ->
  formatDetected s = false
  ∨ videoWidth video <> lastVideoWidth s
  ∨ videoHeight video <> lastVideoHeight s ->
  checkSideBySide video s
  = if exceeds_threshold video then
      ({| canvas_width := videoWidth video / 2;
          canvas_height := videoHeight video;
          _isSideBySide := true;
          formatDetected := true;
          lastVideoWidth := videoWidth video;
          lastVideoHeight := videoHeight video |},
       [SetupProgram programSBS;
        ConsoleLog true (videoWidth video) (videoHeight video)
                   (videoWidth video / 2) (videoHeight video)])
    else
      ({| canvas_width := videoWidth video;
          canvas_height := videoHeight video;
          _isSideBySide := false;
          formatDetected := true;
          lastVideoWidth := videoWidth video;
          lastVideoHeight := videoHeight video |},
       [SetupProgram programNormal;
        ConsoleLog false (videoWidth video) (videoHeight video)
                   (videoWidth video) (videoHeight video)]).
Proof.
  intros Hw Hh Hrun. unfold checkSideBySide.
  rewrite !bool_decide_eq_true_2 by done. cbn [andb].
  destruct Hrun as [Hd|[Hne|Hne]].
  - by rewrite Hd.
  - rewrite (bool_decide_eq_true_2 _ Hne). cbn [orb negb]. by rewrite andb_false_r.
  - rewrite (bool_decide_eq_true_2 _ Hne), orb_true_r. cbn [negb].
    by rewrite andb_false_r.
Qed.

(** On common frame sizes the binary64 test agrees with the exact one,
    [5 * width > 9 * height]; a ratio of exactly 1.8 is plain video. *)
Example common_sizes :
  (fun '(w, h) => exceeds_threshold {| videoWidth := w; videoHeight := h |})
    <$> [(480, 270); (640, 480); (1280, 720); (1920, 1080); (1800, 1000);
         (1801, 1000); (960, 480); (2560, 720); (3840, 1080)]
  = (fun '(w, h) => 9 * h <? 5 * w)
    <$> [(480, 270); (640, 480); (1280, 720); (1920, 1080); (1800, 1000);
         (1801, 1000); (960, 480); (2560, 720); (3840, 1080)].
Proof. vm_compute. reflexivity. Qed.

(** What a finished detection has established about the fields. *)
Lemma detection_consistent (frames : list HTMLVideoElement) (s : t) :
  (formatDetected s = true ->
   _isSideBySide s
   = exceeds_threshold {| videoWidth := lastVideoWidth s;
                          videoHeight := lastVideoHeight s |}
   ∧ canvas_width s
     = (if _isSideBySide s then lastVideoWidth s / 2 else lastVideoWidth s)
   ∧ canvas_height s = lastVideoHeight s) ->
  let r := render_frames s frames in
  formatDetected r = true ->
  _isSideBySide r
  = exceeds_threshold {| videoWidth := lastVideoWidth r;
                         videoHeight := lastVideoHeight r |}
  ∧ canvas_width r
    = (if _isSideBySide r then lastVideoWidth r / 2 else lastVideoWidth r)
  ∧ canvas_height r = lastVideoHeight r.
Proof.
  revert s. induction frames as [|video frames IH]; intros s Hs; [done|].
  apply IH. clear IH.
  destruct (decide (videoWidth video > 0 ∧ videoHeight video > 0)) as [[Hw Hh]|Hneg].
  - destruct (decide (formatDetected s = true
                      ∧ lastVideoWidth s = videoWidth video
                      ∧ lastVideoHeight s = videoHeight video)) as [(Hd & Hlw & Hlh)|Hrun].
    + by rewrite checkSideBySide_cached.
    + rewrite checkSideBySide_detects; [| done | done |].
      * destruct video as [w h]. simpl in *.
        destruct (exceeds_threshold {| videoWidth := w; videoHeight := h |}) eqn:E;
          simpl; by rewrite E.
      * destruct (formatDetected s); [|by left]. right.
        destruct (decide (videoWidth video = lastVideoWidth s)); [|by left].
        destruct (decide (videoHeight video = lastVideoHeight s)); [|by right].
        exfalso. apply Hrun. by repeat split.
  - unfold checkSideBySide.
    destruct (bool_decide (videoWidth video > 0)) eqn:E1;
      destruct (bool_decide (videoHeight video > 0)) eqn:E2; try done.
    apply bool_decide_eq_true in E1, E2. by destruct Hneg.
Qed.

(** C7. When detection runs on a frame of positive dimensions (nothing
    detected yet, or a dimension differs from the last detected pair),
    the video is classified side-by-side exactly when the binary64
    quotient width / height is greater than the literal 1.8; the canvas
    becomes (width / 2) x height for side-by-side (the integer quotient,
    as the canvas width is an unsigned long) and width x height
    otherwise; and the next tick with the same dimensions changes nothing
    and runs nothing.  480x270 and 640x480 classify as plain video.
    After any run of ticks from a new renderer, a detected format agrees
    with the last detected dimensions in the same way. *)
Theorem layout_detection (video : HTMLVideoElement) (s : t) :
  videoWidth video > 0 ->
  videoHeight video > 0 ->
  formatDetected s = false
  ∨ videoWidth video <> lastVideoWidth s
  ∨ videoHeight video <> lastVideoHeight s ->
  let s' := fst (checkSideBySide video s) in
  isSideBySide s'
  = (1.8 <? number (videoWidth video) / number (videoHeight video))%float
  ∧ canvas_width s'
    = (if isSideBySide s' then videoWidth video / 2 else videoWidth video)
  ∧ canvas_height s' = videoHeight video
  ∧ formatDetected s' = true
  ∧ lastVideoWidth s' = videoWidth video
  ∧ lastVideoHeight s' = videoHeight video
  ∧ checkSideBySide video s' = (s', [])
  ∧ exceeds_threshold {| videoWidth := 480; videoHeight := 270 |} = false
  ∧ exceeds_threshold {| videoWidth := 640; videoHeight := 480 |} = false
  ∧ (∀ frames canvasW canvasH,
       let r := render_frames (constructor canvasW canvasH) frames in
       formatDetected r = true ->
       isSideBySide r
       = exceeds_threshold {| videoWidth := lastVideoWidth r;
                              videoHeight := lastVideoHeight r |}
       ∧ canvas_width r
         = (if isSideBySide r then lastVideoWidth r / 2 else lastVideoWidth r)
       ∧ canvas_height r = lastVideoHeight r).
Proof.
  intros Hw Hh Hrun s'.
  assert (Hs' : formatDetected s' = true ∧ lastVideoWidth s' = videoWidth video
                ∧ lastVideoHeight s' = videoHeight video
                ∧ isSideBySide s' = exceeds_threshold video
                ∧ canvas_width s'
                  = (if isSideBySide s' then videoWidth video / 2 else videoWidth video)
                ∧ canvas_height s' = videoHeight video).
  { unfold s'. rewrite checkSideBySide_detects by done.
    destruct (exceeds_threshold video); done. }
  destruct Hs' as (Hd & Hlw & Hlh & Hsbs & Hcw & Hch).
  repeat split; try done.
  - by apply checkSideBySide_cached.
  - by apply (detection_consistent frames (constructor canvasW canvasH)).
  - by apply (detection_consistent frames (constructor canvasW canvasH)).
  - by apply (detection_consistent frames (constructor canvasW canvasH)).
Qed.

Lemma layout_detection_witness :
  let video := {| videoWidth := 1920; videoHeight := 540 |} in
  let s' := fst (checkSideBySide video (constructor 300 150)) in
  isSideBySide s' = true ∧ canvas_width s' = 960 ∧ canvas_height s' = 540
  ∧ checkSideBySide video s' = (s', []).
Proof.
  intros video s'.
  destruct (layout_detection video (constructor 300 150))
    as (Hsbs & Hcw & Hch & _ & _ & _ & Hcached & _).
  - reflexivity.
  - reflexivity.
  - left. reflexivity.
  - split; [exact Hsbs | split; [exact Hcw | split; [exact Hch | exact Hcached]]].
Defined.

End Layout.

(** ** Video negotiation *)

Module Negotiation.
Import Eff LiveTalkingWebRTC.

Lemma connect_successful (x : Exchange) (data : Answer) (s : t) :
  successful x = Some data ->
  result_of (connect x s) = Normal (sessionid data)
  ∧ sessionId (state_of (connect x s)) = sessionid data.
Proof.
  unfold successful, refused. intros H.
  destruct x as [[] [] [[[] st [d|]]|] []]; simpl in H; try done.
  destruct (code_is_minus_one d) eqn:Hc; [done|]. injection H as ->.
  unfold connect, try_catch, bind, result_of, state_of. simpl. rewrite Hc. done.
Qed.

Lemma connect_unsuccessful (x : Exchange) (s : t) :
  successful x = None ->
  (∃ e, result_of (connect x s) = Thrown e)
  ∧ sessionId (state_of (connect x s)) = sessionId s.
Proof.
  unfold successful, refused. intros H.
  destruct s as [[url ? ? ? notify] pc sid].
  destruct x as [[] [] [[[] st [d|]]|] []]; simpl in H;
    try destruct (code_is_minus_one d) eqn:Hc; try done;
    unfold connect, try_catch, bind, result_of, state_of; simpl;
    rewrite ?Hc; simpl; destruct notify; simpl; eauto.
Qed.

Lemma refused_unsuccessful (x : Exchange) (response : Response) :
  fetch x = Some response -> refused response = true -> successful x = None.
Proof.
  intros Hf Hr. unfold successful. rewrite Hf, Hr.
  by destruct (createOffer x && setLocalDescription x && setRemoteDescription x).
Qed.

(** C8. When the server answers the offer with a non-success HTTP status
    or with a body whose code is -1, [connect()] throws and the session id
    is what it was before: 0 for a newly constructed session.  When the
    exchange is successful and the answer carries session id n,
    [connect()] returns n and [getSessionId()] returns n afterwards.  Both
    hold from every state of the object, with the id unchanged on
    failure. *)
Theorem negotiation_outcome (cfg : LiveTalkingConfig) (failing passing : Exchange)
    (response : Response) (answer : Answer) :
  fetch failing = Some response ->
  refused response = true ->
  successful passing = Some answer ->
  let fresh := constructor cfg in
  getSessionId fresh = 0%float
  ∧ (∃ e, result_of (connect failing fresh) = Thrown e)
  ∧ getSessionId (state_of (connect failing fresh)) = 0%float
  ∧ result_of (connect passing fresh) = Normal (sessionid answer)
  ∧ getSessionId (state_of (connect passing fresh)) = sessionid answer
  ∧ (∀ s, (∃ e, result_of (connect failing s) = Thrown e)
          ∧ getSessionId (state_of (connect failing s)) = getSessionId s
          ∧ result_of (connect passing s) = Normal (sessionid answer)
          ∧ getSessionId (state_of (connect passing s)) = sessionid answer).
Proof.
  intros Hf Hr Hok fresh.
  pose proof (refused_unsuccessful _ _ Hf Hr) as Hbad.
  split; [done|].
  destruct (connect_unsuccessful failing fresh Hbad) as [Hthrow Hid].
  destruct (connect_successful passing answer fresh Hok) as [Hret Hnew].
  split; [done|]. split; [done|]. split; [done|]. split; [done|].
  intros s.
  destruct (connect_unsuccessful failing s Hbad) as [Hthrow' Hid'].
  destruct (connect_successful passing answer s Hok) as [Hret' Hnew'].
  done.
Qed.

Lemma negotiation_outcome_witness :
  let cfg := {| serverUrl := "http://localhost:8010"; onVideoTrack := true;
                onAudioTrack := true; onConnectionStateChange := true;
                onError := true |} in
  let error_body := {| code := Some (Json.Number (-1)%float); msg := Some "busy";
                       sdp := EmptyString; type := EmptyString;
                       sessionid := 0%float |} in
  let answer := {| code := Some (Json.Number 0%float); msg := None;
                   sdp := "v=0"; type := "answer"; sessionid := 42%float |} in
  let exchange body :=
    {| createOffer := true; setLocalDescription := true;
       fetch := Some {| ok := true; status := 200; json := Some body |};
       setRemoteDescription := true |} in
  getSessionId (state_of (connect (exchange error_body) (constructor cfg))) = 0%float
  ∧ result_of (connect (exchange answer) (constructor cfg)) = Normal 42%float
  ∧ getSessionId (state_of (connect (exchange answer) (constructor cfg))) = 42%float.
Proof.
  intros cfg error_body answer exchange.
  destruct (negotiation_outcome cfg (exchange error_body) (exchange answer)
              {| ok := true; status := 200; json := Some error_body |} answer)
    as (_ & _ & Hzero & Hret & Hid & _).
  - reflexivity.
  - vm_compute. reflexivity.
  - vm_compute. reflexivity.
  - split; [exact Hzero | split; [exact Hret | exact Hid]].
Defined.

End Negotiation.

(** * Further properties of the code *)

(** ** Playback through the ring buffer *)

Module Playback.
Import PCMProcessor RingBuffer.

Lemma buffer_read_loop (n : nat) (s : t) :
  buffer (fst (read_loop s n)) = buffer s
  ∧ writeIndex (fst (read_loop s n)) = writeIndex s.
Proof.
  revert s. induction n as [|n IH]; intros s; [done|].
  rewrite read_loop_S. cbn [fst].
  destruct (IH (fst (read_sample s))) as [-> ->].
  unfold read_sample. by case_decide.
Qed.

Lemma readIndex_write_loop (data : list float) (s : t) :
  readIndex (write_loop s data) = readIndex s.
Proof.
  revert s. induction data as [|x data IH]; intros s; [done|].
  change (write_loop s (x :: data)) with (write_loop (write_sample s x) data).
  rewrite IH. unfold write_sample. by case_decide.
Qed.

Lemma drain_after_write (s0 : t) (data : list float) (frames : list nat) :
  wf s0 ->
  bufferSize s0 = 120000 ->
  availableSamples s0 = 0 ->
  Z.of_nat (length data) <= 120000 ->
  (length data <= sum_list frames)%nat ->
  snd (drain (write_loop s0 data) frames)
  = data ++ replicate (sum_list frames - length data) 0%float
  ∧ availableSamples (fst (drain (write_loop s0 data) frames)) = 0.
Proof.
  intros Hwf0 Hcap0 Hempty Hfit Hall.
  assert (Hwf : wf (write_loop s0 data)) by by apply write_loop_wf.
  assert (Hp : pending (write_loop s0 data) = data).
  { rewrite write_loop_pending by done.
    assert (pending s0 = []) as ->.
    { apply length_zero_iff_nil. rewrite length_pending. lia. }
    rewrite Hcap0, Hempty. apply take_ge. lia. }
  rewrite drain_read_loop.
  destruct (read_loop_pending (sum_list frames) _ Hwf) as [Hout Hrest].
  split.
  - rewrite Hout, Hp. by rewrite take_ge by lia.
  - rewrite (available_pending _ (read_loop_wf _ _ Hwf)), Hrest, length_drop, Hp. lia.
Qed.

(** X1.  Whatever arrives in buffer messages while the buffer has room comes
    out of the playback loop unchanged and in order, however the samples
    are split over messages and however the reads are split over render
    quanta; once everything has been played the output is silence. *)
Theorem write_read_round_trip (before : list op) (chunks : list (list float))
    (frames : list nat) :
  availableSamples (run constructor before) = 0 ->
  Z.of_nat (length (concat chunks)) <= 120000 ->
  (length (concat chunks) <= sum_list frames)%nat ->
  let s := run (run constructor before) ((fun c => Msg (Buffer c)) <$> chunks) in
  snd (drain s frames)
  = concat chunks ++ replicate (sum_list frames - length (concat chunks)) 0%float
  ∧ availableSamples (fst (drain s frames)) = 0.
Proof.
  intros Hempty Hfit Hall s. unfold s. rewrite run_writes.
  apply drain_after_write; try done.
  - apply run_wf, wf_constructor.
  - apply bufferSize_run.
Qed.

Lemma write_read_round_trip_witness :
  let block := replicate 4800 0.5%float in
  let s := run (run constructor [Msg Clear]) ((fun c => Msg (Buffer c)) <$> [block]) in
  snd (drain s (replicate 10 480%nat)) = concat [block] ++ replicate (4800 - 4800) 0%float
  ∧ availableSamples (fst (drain s (replicate 10 480%nat))) = 0.
Proof.
  intros block s.
  apply (write_read_round_trip [Msg Clear] [block] (replicate 10 480%nat)).
  - reflexivity.
  - vm_compute. discriminate.
  - vm_compute. lia.
Defined.

(** X2.  In every reachable state a read of [n] frames plays the [n] oldest
    waiting samples and then zeros, keeps the remaining samples waiting in
    their order (nothing is lost, repeated or reordered), lowers
    [availableSamples] by the number played, and writes neither the sample
    array nor the write cursor. *)
Theorem read_conserves_samples (ops : list op) (n : nat) :
  let s := run constructor ops in
  let s' := fst (read_loop s n) in
  snd (read_loop s n)
  = take n (pending s) ++ replicate (n - Z.to_nat (availableSamples s)) 0%float
  ∧ take n (pending s) ++ pending s' = pending s
  ∧ availableSamples s' = Z.max 0 (availableSamples s - Z.of_nat n)
  ∧ buffer s' = buffer s
  ∧ writeIndex s' = writeIndex s.
Proof.
  intros s s'.
  assert (Hwf : wf s) by apply run_wf, wf_constructor.
  destruct (read_loop_pending n s Hwf) as [Hout Hrest].
  destruct (buffer_read_loop n s) as [Hbuf Hw].
  split; [by rewrite Hout, length_pending|].
  split; [unfold s'; rewrite Hrest; apply take_drop|].
  split; [|done].
  unfold s'. rewrite (available_pending _ (read_loop_wf _ _ Hwf)), Hrest, length_drop.
  rewrite length_pending. destruct Hwf. lia.
Qed.

(** X3.  In every reachable state a buffer message appends its samples, in
    order, after those already waiting, as far as the capacity allows, and
    drops the others; [availableSamples] grows to at most 120000, and the
    read cursor is not touched. *)
Theorem write_appends_up_to_capacity (ops : list op) (data : list float) :
  let s := run constructor ops in
  let s' := onmessage s (Buffer data) in
  pending s' = pending s ++ take (Z.to_nat (120000 - availableSamples s)) data
  ∧ availableSamples s'
    = Z.min 120000 (availableSamples s + Z.of_nat (length data))
  ∧ readIndex s' = readIndex s.
Proof.
  intros s s'.
  assert (Hwf : wf s) by apply run_wf, wf_constructor.
  assert (Hcap : bufferSize s = 120000) by apply bufferSize_run.
  assert (Hp : pending s'
               = pending s ++ take (Z.to_nat (120000 - availableSamples s)) data).
  { unfold s'. simpl. rewrite write_loop_pending by done. by rewrite Hcap. }
  split; [done|]. split; [|apply readIndex_write_loop].
  assert (Hwf' : wf s') by by apply onmessage_wf.
  rewrite (available_pending s' Hwf'), Hp, length_app, length_take, length_pending.
  destruct Hwf. lia.
Qed.

(** X4.  How the samples are split over buffer messages and how the reads are
    split over render quanta makes no difference, in any state: two
    messages act as one message with the concatenated samples, and a run
    of render quanta produces what one quantum of the total length
    produces. *)
Theorem chunking_is_irrelevant (s : t) (a b : list float) (frames : list nat) :
  onmessage (onmessage s (Buffer a)) (Buffer b) = onmessage s (Buffer (a ++ b))
  ∧ drain s frames = read_loop s (sum_list frames).
Proof.
  split.
  - simpl. by rewrite write_loop_app.
  - apply drain_read_loop.
Qed.

(** X5.  [process] on an output whose channels all have the length of the
    first one returns [true], leaves the number of channels and their
    length as they were, puts the same samples in every channel, and
    leaves the other outputs alone; with no output, or an output without
    channels, it changes neither the ring buffer nor the outputs.  What it
    posts to the main thread does not depend on the ring buffer. *)
Theorem process_fills_all_channels (s : t) (inputs : list (list (list float)))
    (ch : list float) (rest : list (list float)) (others : list (list (list float))) :
  Forall (fun c => length c = length ch) rest ->
  (∃ filled,
     process s inputs ((ch :: rest) :: others)
     = (fst (read_loop s (length ch)), capture inputs,
        Returns true ((filled :: ((fun _ => filled) <$> rest)) :: others))
     ∧ length filled = length ch
     ∧ Forall (fun c => c = filled) ((fun _ => filled) <$> rest))
  ∧ process s inputs [] = (s, capture inputs, Returns true [])
  ∧ process s inputs ([] :: others) = (s, capture inputs, Returns true ([] :: others))
  ∧ (∀ s' outputs, snd (fst (process s' inputs outputs)) = capture inputs).
Proof.
  intros Hrest. split; [|split; [done|split; [done|]]].
  - exists (snd (read_loop s (length ch))). split; [by apply process_returns|].
    split; [apply length_read_loop|].
    apply Forall_fmap, Forall_true. done.
  - intros s' outputs. unfold process.
    destruct outputs as [|[|c cs] os]; try done.
    destruct (read_loop s' (length c)) as [s1 filled].
    by destruct (copy_channels filled cs).
Qed.

Lemma process_fills_all_channels_witness :
  let s := run constructor [Msg (Buffer [0.5; 0.25]%float)] in
  let quantum := replicate 3 0%float in
  ∃ filled,
    process s [[[1; 2; 3]%float]] [[quantum; quantum]]
    = (fst (read_loop s 3), [Input [1; 2; 3]%float],
       Returns true [[filled; filled]])
    ∧ length filled = 3%nat.
Proof.
  intros s quantum.
  destruct (process_fills_all_channels s [[[1; 2; 3]%float]] quantum [quantum] [])
    as [(filled & Hp & Hlen & _) _].
  - repeat constructor.
  - exists filled. split; [exact Hp | exact Hlen].
Defined.

End Playback.

(** ** The audio session: every handler and call *)

Module Transport.
Import Eff AudioManager HandlerTactics.

Lemma set_status_same (s : t) : set_status (status s) s = s.
Proof. by destruct s. Qed.

Lemma set_status_twice (a b : ConnectionStatus) (s : t) :
  set_status a (set_status b s) = set_status a s.
Proof. by destruct s. Qed.

(** A text message, whatever it is, ends normally, changes at most the
    status, sends nothing and posts no samples. *)
Lemma text_message_frame (JSON_parse : string -> option Json.value)
    (text : string) (s : t) :
  ∃ st out,
    websocket_onmessage JSON_parse (TextData text) s = (Normal tt, set_status st s, out)
    ∧ sent_frames out = [] ∧ sent_texts out = [] ∧ posted_blocks out = []
    ∧ (st = status s ∨ st = ready ∨ st = processing ∨ st = error)
    ∧ (workletNode s = None -> port_messages out = []).
Proof.
  unfold websocket_onmessage, try_catch, bind.
  destruct (JSON_parse text) as [data|]; simpl.
  2: { exists (status s). eexists. rewrite set_status_same. split; [done|]. by repeat split; try left. }
  unfold handleJsonMessage, bind, of_outcome.
  destruct data as [| b | x | str | els | ms]; simpl;
    try (exists (status s); eexists; rewrite set_status_same; split; [done|];
         by repeat split; try left).
  destruct s as [ctx node media ws [notify act err] st rec cnt].
  destruct (Json.member "type" ms) as [ty|], (Json.member "message" ms) as [msg|];
    cbn -[Json.is_string].
  all: repeat match goal with
       | |- context [Json.is_string ?v ?l] =>
           destruct (Json.is_string v l) eqn:?; cbn -[Json.is_string]
       end.
  all: unfold setStatus, bind, modify, get, when, emit, ret; cbn -[Json.is_string].
  all: destruct notify, err, node; cbn -[Json.is_string].
  all: eexists _, _; (split; [reflexivity|]); cbn.
  all: repeat split; auto; done.
Qed.


Lemma dispatch_sent_frames (JSON_parse : string -> option Json.value) (ev : event) (s : t) :
  sent_frames (effects_of (dispatch JSON_parse ev s))
  = match ev with
    | Captured (PCMProcessor.Input f) =>
        match websocket s with
        | Some ws => if bool_decide (readyState ws = OPEN) && isRecording s then [f] else []
        | None => []
        end
    | _ => []
    end.
Proof.
  destruct ev as [| [payload|text] | | | [frame] | mic | | | c | | | | sid | ].
  3: { destruct (text_message_frame JSON_parse text s)
         as (st & out & Heq & Hf & _). cbn [dispatch]. by rewrite Heq. }
  all: run_cases.
Qed.

Lemma dispatch_posted_blocks (JSON_parse : string -> option Json.value) (ev : event) (s : t) :
  posted_blocks (effects_of (dispatch JSON_parse ev s))
  = match ev with
    | Received (BinaryData d) =>
        match workletNode s with
        | Some _ => if decide (spareBytes d = 0) then [samples d] else []
        | None => []
        end
    | _ => []
    end.
Proof.
  destruct ev as [| [payload|text] | | | [frame] | mic | | | c | | | | sid | ].
  3: { destruct (text_message_frame JSON_parse text s)
         as (st & out & Heq & _ & _ & Hp & _). cbn [dispatch]. by rewrite Heq. }
  all: run_cases.
Qed.

Lemma dispatch_paused (JSON_parse : string -> option Json.value) (ev : event) (s : t) :
  resumes_recording ev = false ->
  isRecording s = false ->
  isRecording (state_of (dispatch JSON_parse ev s)) = false.
Proof.
  intros Hev Hrec.
  destruct ev as [| [payload|text] | | | [frame] | mic | | | c | | | | sid | ];
    try discriminate.
  3: { destruct (text_message_frame JSON_parse text s)
         as (st & out & Heq & _). cbn [dispatch]. rewrite Heq. by destruct s. }
  all: run_cases.
Qed.

Lemma dispatch_count (JSON_parse : string -> option Json.value) (ev : event) (s : t) :
  starts_recording ev = false ->
  audioChunkCount (state_of (dispatch JSON_parse ev s))
  = audioChunkCount s
    + Z.of_nat (length (sent_frames (effects_of (dispatch JSON_parse ev s)))).
Proof.
  intros Hev.
  destruct ev as [| [payload|text] | | | [frame] | mic | | | c | | | | sid | ];
    try discriminate.
  3: { destruct (text_message_frame JSON_parse text s)
         as (st & out & Heq & Hf & _). cbn [dispatch]. rewrite Heq.
       unfold state_of, effects_of. cbn [fst snd]. rewrite Hf. destruct s. simpl. lia. }
  all: run_cases; lia.
Qed.

Lemma run_events_cons (JSON_parse : string -> option Json.value)
    (ev : event) (evs : list event) (s : t) :
  run_events JSON_parse (ev :: evs) s
  = (fst (run_events JSON_parse evs (state_of (dispatch JSON_parse ev s))),
     effects_of (dispatch JSON_parse ev s)
     ++ snd (run_events JSON_parse evs (state_of (dispatch JSON_parse ev s)))).
Proof.
  cbn [run_events]. destruct (dispatch JSON_parse ev s) as [[r s1] out1].
  unfold state_of, effects_of. cbn [fst snd].
  by destruct (run_events JSON_parse evs s1).
Qed.

Lemma sent_frames_app (a b : list effect) :
  sent_frames (a ++ b) = sent_frames a ++ sent_frames b.
Proof. apply omap_app. Qed.



Lemma posted_blocks_app (a b : list effect) :
  posted_blocks (a ++ b) = posted_blocks a ++ posted_blocks b.
Proof. apply omap_app. Qed.

(** X6.  Every text message, whatever the parser makes of it, ends normally;
    it changes no field other than the status, which stays as it was or
    becomes [ready], [processing] or [error]; it sends nothing on the
    socket and posts no samples to the worklet. *)
Theorem text_messages_touch_status_only (JSON_parse : string -> option Json.value)
    (text : string) (s : t) :
  let r := websocket_onmessage JSON_parse (TextData text) s in
  result_of r = Normal tt
  ∧ state_of r = set_status (status (state_of r)) s
  ∧ (status (state_of r) = status s ∨ status (state_of r) = ready
     ∨ status (state_of r) = processing ∨ status (state_of r) = error)
  ∧ sent_frames (effects_of r) = []
  ∧ sent_texts (effects_of r) = []
  ∧ posted_blocks (effects_of r) = [].
Proof.
  intros r. unfold r.
  destruct (text_message_frame JSON_parse text s)
    as (st & out & -> & Hf & Ht & Hp & Hst & _).
  unfold result_of, state_of, effects_of. cbn [fst snd].
  assert (status (set_status st s) = st) as -> by by destruct s.
  done.
Qed.

(** X7.  Valid JSON that is not an object never changes anything: [null] is
    logged as a parse failure (reading [data.type] throws inside the
    [try]), and a boolean, number, string or array is dropped without a
    trace. *)
Theorem non_object_json_is_dropped (JSON_parse : string -> option Json.value)
    (text : string) (data : Json.value) (s : t) :
  JSON_parse text = Some data ->
  match data with
  | Json.Object _ => True
  | Json.Null =>
      websocket_onmessage JSON_parse (TextData text) s
      = (Normal tt, s, [ConsoleError "Failed to parse message:" (Some TypeError)])
  | _ => websocket_onmessage JSON_parse (TextData text) s = (Normal tt, s, [])
  end.
Proof.
  intros Hparse. unfold websocket_onmessage, try_catch, bind. rewrite Hparse.
  by destruct data.
Qed.

Lemma non_object_json_is_dropped_witness :
  websocket_onmessage (fun _ => Some Json.Null) (TextData "null") in_call
  = (Normal tt, in_call, [ConsoleError "Failed to parse message:" (Some TypeError)]).
Proof.
  apply (non_object_json_is_dropped (fun _ => Some Json.Null) "null" Json.Null in_call).
  reflexivity.
Defined.

Lemma websocket_onmessage_ready (JSON_parse : string -> option Json.value)
    (text : string) (data : Json.value) (s : t) :
  JSON_parse text = Some data ->
  is_status_message data "ready" ->
  websocket_onmessage JSON_parse (TextData text) s
  = (Normal tt, set_status ready s,
     (if onStatusChange (callbacks s) then [StatusChanged ready] else [])
     ++ [ClearTimeout]
     ++ (if onStatusChange (callbacks s) then [StatusChanged ready] else [])
     ++ [PromiseResolve]).
Proof.
  intros Hparse [Hty Hmsg].
  destruct data as [| b | x | str | els | ms]; try done.
  simpl in Hty, Hmsg. injection Hty as Hty. injection Hmsg as Hmsg.
  unfold websocket_onmessage, try_catch, bind, handleJsonMessage, bind, of_outcome.
  rewrite Hparse. cbn -[setStatus]. rewrite !Hty, !Hmsg.
  destruct s as [ctx node media ws [[] act err] st rec cnt]; reflexivity.
Qed.

(** X8.  The server's [ready] message, in any state: the status becomes
    [ready], the connection timer is cleared and the promise of
    [connectWebSocket] is resolved; the status observer is told [ready]
    twice, once by [handleJsonMessage] and once by the handler itself. *)
Theorem ready_message_resolves (JSON_parse : string -> option Json.value)
    (text : string) (data : Json.value) (s : t) :
  JSON_parse text = Some data ->
  is_status_message data "ready" ->
  websocket_onmessage JSON_parse (TextData text) s
  = (Normal tt, set_status ready s,
     (if onStatusChange (callbacks s) then [StatusChanged ready] else [])
     ++ [ClearTimeout]
     ++ (if onStatusChange (callbacks s) then [StatusChanged ready] else [])
     ++ [PromiseResolve]).
Proof.
  intros Hparse Hready. by apply (websocket_onmessage_ready _ _ data).
Qed.

Lemma ready_message_resolves_witness :
  websocket_onmessage parse_status_text (TextData (status_text "ready")) socket_opened
  = (Normal tt, set_status ready socket_opened,
     [StatusChanged ready; ClearTimeout; StatusChanged ready; PromiseResolve]).
Proof.
  apply (ready_message_resolves parse_status_text (status_text "ready")
           (status_value "ready") socket_opened).
  - vm_compute. reflexivity.
  - split; reflexivity.
Defined.

(** X9.  A server [error] message, in any state: the status becomes [error]
    and the error observer receives the message text as sent; the handler
    ends normally, and it neither rejects the promise of
    [connectWebSocket] nor closes or drops the socket. *)
Theorem error_message_reported (JSON_parse : string -> option Json.value)
    (text : string) (data : Json.value) (s : t) :
  JSON_parse text = Some data ->
  Json.prop data "type" = Normal (Some (Json.String "error")) ->
  ∃ message,
    Json.prop data "message" = Normal message
    ∧ websocket_onmessage JSON_parse (TextData text) s
      = (Normal tt, set_status error s,
         (if onStatusChange (callbacks s) then [StatusChanged error] else [])
         ++ (if onError (callbacks s) then [ErrorReported message] else [])).
Proof.
  intros Hparse Hty.
  destruct data as [| b | x | str | els | ms]; try done.
  exists (Json.member "message" ms). split; [done|].
  simpl in Hty. injection Hty as Hty.
  unfold websocket_onmessage, try_catch, bind, handleJsonMessage, bind, of_outcome.
  rewrite Hparse. cbn -[setStatus]. rewrite !Hty.
  destruct s as [ctx node media ws [[] act []] st rec cnt]; reflexivity.
Qed.

Lemma error_message_reported_witness :
  let data := Json.Object [("type", Json.String "error");
                           ("message", Json.String "model overloaded")] in
  ∃ message,
    Json.prop data "message" = Normal message
    ∧ websocket_onmessage (fun _ => Some data) (TextData "e") in_call
      = (Normal tt, set_status error in_call,
         [StatusChanged error] ++ [ErrorReported message]).
Proof.
  intros data.
  apply (error_message_reported (fun _ => Some data) "e" data in_call).
  - reflexivity.
  - reflexivity.
Defined.

(** X10.  A binary payload is forwarded to the worklet as one block holding
    exactly its samples when the worklet node exists and the payload is a
    whole number of 32-bit words; in every other case nothing is posted.
    It never sends anything on the socket and changes no field other than
    the status. *)
Theorem binary_payload_forwarded (JSON_parse : string -> option Json.value)
    (payload : ArrayBuffer) (s : t) :
  let r := websocket_onmessage JSON_parse (BinaryData payload) s in
  port_messages (effects_of r)
  = match workletNode s with
    | Some _ =>
        if decide (spareBytes payload = 0)
        then [PCMProcessor.Buffer (samples payload)] else []
    | None => []
    end
  ∧ state_of r = set_status (status (state_of r)) s
  ∧ sent_frames (effects_of r) = []
  ∧ sent_texts (effects_of r) = [].
Proof.
  destruct s as [ctx node media ws [notify act err] st rec cnt].
  cbn [websocket_onmessage]. run_cases.
Qed.

(** X11.  Control commands never change the manager and never throw.  Each is
    sent as one JSON text frame exactly when the socket exists and is
    OPEN, and is dropped silently otherwise.  [interrupt] also posts a
    clear command to the worklet whenever the worklet node exists, whether
    or not the command could be sent, and that empties the ring buffer. *)
Theorem commands_need_open_socket (s : t) (command : string) (sessionId : float)
    (p : PCMProcessor.t) :
  let open := match websocket s with
              | Some ws => bool_decide (readyState ws = OPEN)
              | None => false
              end in
  let frame name := Json.Object [("command", Json.String name)] in
  sendCommand command s
  = (Normal tt, s, if open then [SocketSendText (frame command)] else [])
  ∧ clearHistory s
    = (Normal tt, s, if open then [SocketSendText (frame "clear_history")] else [])
  ∧ forceProcess s
    = (Normal tt, s, if open then [SocketSendText (frame "force_process")] else [])
  ∧ setLiveTalkingSession sessionId s
    = (Normal tt, s,
       if open
       then [SocketSendText
               (Json.Object [("command", Json.String "set_livetalking_session");
                             ("sessionId", Json.Number sessionId)])]
       else [])
  ∧ interrupt s
    = (Normal tt, s,
       (if open then [SocketSendText (frame "interrupt")] else [])
       ++ match workletNode s with
          | Some _ => [PortPost PCMProcessor.Clear]
          | None => []
          end)
  ∧ PCMProcessor.availableSamples (deliver p (effects_of (interrupt s)))
    = match workletNode s with
      | Some _ => 0
      | None => PCMProcessor.availableSamples p
      end.
Proof.
  intros open frame. unfold open, frame, deliver.
  destruct s as [ctx [node|] media [[[]]|] cbs st rec cnt]; by repeat split.
Qed.

(** X12.  [stop] from any state: it ends normally, leaves the manager without
    stream, worklet node, socket and audio context, not recording and
    [disconnected], and releases exactly the resources that were held,
    each once, in the order stream, node, socket, context.  A second
    [stop] releases nothing. *)
Theorem stop_releases_everything (s : t) :
  let stopped :=
    {| audioContext := None; workletNode := None; stream := None;
       websocket := None; callbacks := callbacks s; status := disconnected;
       isRecording := false; audioChunkCount := audioChunkCount s |} in
  let notify :=
    if onStatusChange (callbacks s) then [StatusChanged disconnected] else [] in
  stop s
  = (Normal tt, stopped,
     (if stream s is Some _ then [TracksStop] else [])
     ++ (if workletNode s is Some _ then [NodeDisconnect] else [])
     ++ (if websocket s is Some _ then [SocketClose] else [])
     ++ (if audioContext s is Some _ then [ContextClose] else [])
     ++ notify)
  ∧ stop stopped = (Normal tt, stopped, notify).
Proof.
  destruct s as [[ctx|] [node|] [media|] [ws|] [[] act err] st rec cnt];
    by split.
Qed.



(** X14.  [startRecording], case by case.  Without an audio context or a socket
    it throws "AudioManager not initialized" and changes nothing.  When
    the microphone is refused it throws after resuming a suspended
    context, and the worklet node, the stream and the recording flag are
    as before.  Otherwise it ends normally with the stream stored, a
    connected worklet node, the chunk counter at 0 and recording on.  The
    status is the same in every case. *)
Theorem startRecording_outcomes (microphone : option MediaStream) (s : t) :
  let r := startRecording microphone s in
  status (state_of r) = status s
  ∧ match audioContext s, websocket s, microphone with
    | Some ctx, Some ws, Some media =>
        result_of r = Normal tt
        ∧ stream (state_of r) = Some media
        ∧ workletNode (state_of r) = Some {| connected := true |}
        ∧ isRecording (state_of r) = true
        ∧ audioChunkCount (state_of r) = 0
        ∧ audioContext (state_of r) = Some {| state := if decide (state ctx = suspended) then running else state ctx |}
        ∧ websocket (state_of r) = Some ws
    | Some ctx, Some ws, None =>
        result_of r = Thrown (Rejected "getUserMedia")
        ∧ stream (state_of r) = stream s
        ∧ workletNode (state_of r) = workletNode s
        ∧ isRecording (state_of r) = isRecording s
        ∧ audioContext (state_of r) = Some {| state := if decide (state ctx = suspended) then running else state ctx |}
    | _, _, _ =>
        r = (Thrown (Error "AudioManager not initialized"), s,
             [ConsoleLog "[AudioManager] startRecording called"])
    end.
Proof.
  destruct s as [[[[]]|] node media [ws|] cbs st rec cnt], microphone;
    by repeat split.
Qed.

(** X15.  [initialize] before the socket exists.  When the browser has no
    AudioWorklet, or the worklet module fails to load, it throws with the
    status [error], the status observer having seen [connecting] and then
    [error]; no socket is created, and the audio context that was created
    is kept, not closed.  Otherwise it reaches the point where it waits
    for the server with the status [connecting] and a connecting socket.
    When the wait is rejected, the status becomes [error], the rejection
    is rethrown, and neither the socket nor the audio context is
    released. *)
Theorem initialize_failures (browser : Browser) (e : exn) (s : t) :
  let r := initialize_open browser s in
  audioContext (state_of r) = Some {| state := contextState browser |}
  ∧ (if audioWorklet browser && addModule browser
     then result_of r = Normal tt
          ∧ status (state_of r) = connecting
          ∧ websocket (state_of r) = Some {| readyState := CONNECTING |}
          ∧ effects_of r
            = (if onStatusChange (callbacks s) then [StatusChanged connecting] else [])
     else result_of r
          = Thrown (if audioWorklet browser
                    then Rejected "addModule"
                    else Error "AudioWorklet not supported in this browser")
          ∧ status (state_of r) = error
          ∧ websocket (state_of r) = websocket s
          ∧ effects_of r
            = (if onStatusChange (callbacks s)
               then [StatusChanged connecting; StatusChanged error] else []))
  ∧ initialize_rejected e s
    = (Thrown e, set_status error s,
       if onStatusChange (callbacks s) then [StatusChanged error] else []).
Proof.
  destruct s as [ctx node media ws [[] act err] st rec cnt],
    browser as [cs [] []]; by repeat split.
Qed.

(** X16.  Over any run of events and calls that does not restart recording,
    the chunk counter grows by exactly the number of capture frames sent
    on the socket. *)
Theorem chunk_counter_counts_sent_frames (JSON_parse : string -> option Json.value)
    (evs : list event) (s : t) :
  forallb (fun ev => negb (starts_recording ev)) evs = true ->
  audioChunkCount (fst (run_events JSON_parse evs s))
  = audioChunkCount s
    + Z.of_nat (length (sent_frames (snd (run_events JSON_parse evs s)))).
Proof.
  revert s. induction evs as [|ev evs IH]; intros s Hevs; [simpl; lia|].
  simpl in Hevs. apply andb_prop in Hevs as [Hev Hevs].
  rewrite run_events_cons. cbn [fst snd].
  rewrite IH, dispatch_count, sent_frames_app, length_app by
    (done || by destruct (starts_recording ev)).
  lia.
Qed.

Lemma chunk_counter_counts_sent_frames_witness :
  let evs := [Captured (PCMProcessor.Input [0.5; 0.25]%float); CallStopRecording;
              Captured (PCMProcessor.Input [0.125]%float); CallResumeRecording;
              Captured (PCMProcessor.Input [1]%float)] in
  audioChunkCount (fst (run_events parse_status_text evs in_call))
  = audioChunkCount in_call
    + Z.of_nat (length (sent_frames (snd (run_events parse_status_text evs in_call)))).
Proof.
  intros evs.
  apply (chunk_counter_counts_sent_frames parse_status_text evs in_call).
  reflexivity.
Defined.

(** X17.  While recording is paused no capture frame leaves the client: from a
    state that is not recording, over any run of events and calls other
    than [resumeRecording] and [startRecording], nothing is sent as a
    binary frame and the manager stays paused. *)
Theorem paused_sends_no_frames (JSON_parse : string -> option Json.value)
    (evs : list event) (s : t) :
  isRecording s = false ->
  forallb (fun ev => negb (resumes_recording ev)) evs = true ->
  sent_frames (snd (run_events JSON_parse evs s)) = []
  ∧ isRecording (fst (run_events JSON_parse evs s)) = false.
Proof.
  revert s. induction evs as [|ev evs IH]; intros s Hrec Hevs; [done|].
  simpl in Hevs. apply andb_prop in Hevs as [Hev Hevs].
  apply negb_true_iff in Hev.
  rewrite run_events_cons. cbn [fst snd].
  destruct (IH _ (dispatch_paused JSON_parse ev s Hev Hrec) Hevs) as [Hf Hr].
  rewrite sent_frames_app, Hf, app_nil_r, dispatch_sent_frames.
  split; [|done].
  destruct ev as [| | | | [f] | | | | | | | | | ]; try done.
  destruct (websocket s); [|done]. by rewrite Hrec, andb_false_r.
Qed.

Lemma paused_sends_no_frames_witness :
  let s := state_of (stopRecording in_call) in
  let evs := [Captured (PCMProcessor.Input [0.5; 0.25]%float);
              Received (TextData (status_text "done"));
              CallInterrupt;
              Captured (PCMProcessor.Input [0.125]%float)] in
  sent_frames (snd (run_events parse_status_text evs s)) = []
  ∧ isRecording (fst (run_events parse_status_text evs s)) = false.
Proof.
  intros s evs.
  apply (paused_sends_no_frames parse_status_text evs s); reflexivity.
Defined.

(** X18.  Nothing is sent or played that was not captured or received: over any
    run of events and calls from any state, the capture frames sent on the
    socket are a subsequence, in order, of the frames the worklet
    captured, and the sample blocks posted to the worklet are a
    subsequence, in order, of the binary payloads received. *)
Theorem frames_are_relayed_in_order (JSON_parse : string -> option Json.value)
    (evs : list event) (s : t) :
  sent_frames (snd (run_events JSON_parse evs s)) `sublist_of` captured_frames evs
  ∧ posted_blocks (snd (run_events JSON_parse evs s)) `sublist_of` received_blocks evs.
Proof.
  revert s. induction evs as [|ev evs IH]; intros s; [done|].
  rewrite run_events_cons. cbn [fst snd].
  destruct (IH (state_of (dispatch JSON_parse ev s))) as [IHf IHp].
  rewrite sent_frames_app, posted_blocks_app.
  rewrite dispatch_sent_frames, dispatch_posted_blocks.
  change (ev :: evs) with ([ev] ++ evs).
  unfold captured_frames, received_blocks in *. rewrite !omap_app.
  split; apply sublist_app; try done.
  - destruct ev as [| | | | [f] | | | | | | | | | ]; try done.
    destruct (websocket s) as [ws|]; [|apply sublist_nil_l].
    destruct (bool_decide (readyState ws = OPEN) && isRecording s);
      [done|apply sublist_nil_l].
  - destruct ev as [| [d|] | | | | | | | | | | | | ]; try done.
    destruct (workletNode s); [|apply sublist_nil_l].
    destruct (decide (spareBytes d = 0)); [done|apply sublist_nil_l].
Qed.

(** X19.  The level reported for a frame depends only on the frame's length and
    on its samples at indices 0, 10, 20, ...: two frames of the same
    length that agree there have the same level. *)
Theorem rms_ignores_skipped_samples (a b : list float) :
  length a = length b ->
  (∀ i : nat, a !! (10 * i)%nat = b !! (10 * i)%nat) ->
  rms a = rms b.
Proof.
  intros Hlen Hsame. rewrite !Session.rms_strided.
  unfold strided, number_of_length. rewrite Hlen.
  by rewrite (Session.omap_pointwise _ (fun i => b !! (10 * i)%nat)).
Qed.

Lemma rms_ignores_skipped_samples_witness :
  rms [0.5; 0.25; 0.25; 0.25; 0.25; 0.25; 0.25; 0.25; 0.25; 0.25; 1]%float
  = rms [0.5; 0; 0; 0; 0; 0; 0; 0; 0; 0; 1]%float.
Proof.
  apply rms_ignores_skipped_samples; [reflexivity|].
  intros [|[|i]]; [reflexivity|reflexivity|].
  rewrite !lookup_ge_None_2; [reflexivity| |]; simpl; lia.
Defined.

Lemma binary_port_messages (JSON_parse : string -> option Json.value)
    (payload : ArrayBuffer) (s : t) (node : AudioWorkletNode) :
  workletNode s = Some node ->
  spareBytes payload = 0 ->
  port_messages (effects_of (websocket_onmessage JSON_parse (BinaryData payload) s))
  = [PCMProcessor.Buffer (samples payload)].
Proof.
  intros Hnode Hspare.
  destruct s as [ctx n media ws [notify act err] st rec cnt]. simpl in Hnode. subst n.
  cbn [websocket_onmessage]. run_handler. rewrite Hspare.
  by destruct (bool_decide (st = ready)), notify.
Qed.

(** X20.  From the socket to the loudspeaker: a well-formed binary payload that
    arrives while the worklet node exists and the ring buffer is empty
    and large enough is played by the following render quanta exactly as
    received, sample for sample, followed by silence. *)
Theorem received_audio_is_played (JSON_parse : string -> option Json.value)
    (s : t) (node : AudioWorkletNode) (payload : ArrayBuffer)
    (before : list PCMProcessor.op) (frames : list nat) :
  workletNode s = Some node ->
  spareBytes payload = 0 ->
  PCMProcessor.availableSamples (PCMProcessor.run PCMProcessor.constructor before) = 0 ->
  Z.of_nat (length (samples payload)) <= 120000 ->
  (length (samples payload) <= sum_list frames)%nat ->
  let p := deliver (PCMProcessor.run PCMProcessor.constructor before)
             (effects_of (websocket_onmessage JSON_parse (BinaryData payload) s)) in
  snd (PCMProcessor.drain p frames)
  = samples payload
    ++ replicate (sum_list frames - length (samples payload)) 0%float
  ∧ PCMProcessor.availableSamples (fst (PCMProcessor.drain p frames)) = 0.
Proof.
  intros Hnode Hspare Hempty Hfit Hall p. unfold p, deliver.
  rewrite (binary_port_messages _ _ _ _ Hnode Hspare). cbn [foldl PCMProcessor.onmessage].
  apply Playback.drain_after_write; try done.
  - apply RingBuffer.run_wf, RingBuffer.wf_constructor.
  - apply RingBuffer.bufferSize_run.
Qed.

Lemma received_audio_is_played_witness :
  let payload := {| samples := replicate 4800 0.5%float; spareBytes := 0 |} in
  let p := deliver (PCMProcessor.run PCMProcessor.constructor [])
             (effects_of (websocket_onmessage parse_status_text (BinaryData payload) in_call)) in
  snd (PCMProcessor.drain p (replicate 10 480%nat))
  = samples payload ++ replicate (4800 - 4800) 0%float
  ∧ PCMProcessor.availableSamples (fst (PCMProcessor.drain p (replicate 10 480%nat))) = 0.
Proof.
  intros payload p.
  apply (received_audio_is_played parse_status_text in_call {| connected := true |}
           payload [] (replicate 10 480%nat)).
  - reflexivity.
  - reflexivity.
  - reflexivity.
  - vm_compute. discriminate.
  - vm_compute. lia.
Defined.

(** X21.  From the microphone to the socket: what one [process] call posts to
    the main thread is, once handled by the port handler of a recording
    manager with an open socket, sent as exactly one binary frame holding
    the first channel of the first input, unchanged; an empty or missing
    channel sends nothing. *)
Theorem captured_audio_is_sent (JSON_parse : string -> option Json.value)
    (p : PCMProcessor.t) (inputs outputs : list (list (list float)))
    (s : t) (ws : WebSocket) :
  websocket s = Some ws ->
  readyState ws = OPEN ->
  isRecording s = true ->
  let posts := snd (fst (PCMProcessor.process p inputs outputs)) in
  sent_frames (snd (run_events JSON_parse (Captured <$> posts) s))
  = match inputs with
    | ((x :: channel) :: _) :: _ => [x :: channel]
    | _ => []
    end.
Proof.
  intros Hws Hopen Hrec posts.
  assert (posts = PCMProcessor.capture inputs) as ->.
  { unfold posts, PCMProcessor.process.
    destruct outputs as [|[|c cs] os]; try done.
    destruct (PCMProcessor.read_loop p (length c)) as [s1 filled].
    by destruct (PCMProcessor.copy_channels filled cs). }
  destruct inputs as [|[|[|x channel] chs] ins]; try done.
  cbn [PCMProcessor.capture fmap list_fmap].
  rewrite run_events_cons. cbn [run_events snd].
  rewrite app_nil_r, dispatch_sent_frames, Hws, Hrec.
  by rewrite bool_decide_eq_true_2.
Qed.

Lemma captured_audio_is_sent_witness :
  let posts := snd (fst (PCMProcessor.process PCMProcessor.constructor
                           [[[0.5; 0.25]%float]] [[[0; 0]%float]])) in
  sent_frames (snd (run_events parse_status_text (Captured <$> posts) in_call))
  = [[0.5; 0.25]%float].
Proof.
  intros posts.
  apply (captured_audio_is_sent parse_status_text PCMProcessor.constructor
           [[[0.5; 0.25]%float]] [[[0; 0]%float]] in_call {| readyState := OPEN |});
    reflexivity.
Defined.

(** X22.  Setting up a call: after [initialize] has opened the socket in a
    browser with AudioWorklet, the open event, the server's [ready]
    message and a [startRecording] with the microphone granted leave a
    new manager [ready] and recording, with a connected worklet node and
    an open socket; the promise of [connectWebSocket] has been resolved
    once and never rejected, and from then on a captured frame is sent. *)
Theorem call_setup (JSON_parse : string -> option Json.value)
    (cbs : option AudioManagerCallbacks) (browser : Browser)
    (text : string) (data : Json.value) (media : MediaStream) (frame : list float) :
  audioWorklet browser = true ->
  addModule browser = true ->
  JSON_parse text = Some data ->
  is_status_message data "ready" ->
  let opened := initialize_open browser (constructor cbs) in
  let r := run_events JSON_parse
             [Opened; Received (TextData text); CallStartRecording (Some media)]
             (state_of opened) in
  result_of opened = Normal tt
  ∧ status (fst r) = ready
  ∧ isRecording (fst r) = true
  ∧ workletNode (fst r) = Some {| connected := true |}
  ∧ websocket (fst r) = Some {| readyState := OPEN |}
  ∧ stream (fst r) = Some media
  ∧ promise_settlements (snd r) = [true]
  ∧ sent_frames (effects_of (worklet_onmessage (PCMProcessor.Input frame) (fst r)))
    = [frame].
Proof.
  intros Hworklet Hmodule Hparse Hready opened r. unfold r, opened.
  destruct browser as [cs w m]. simpl in Hworklet, Hmodule. subst w m.
  rewrite !run_events_cons. cbn [run_events dispatch fst snd].
  rewrite !(websocket_onmessage_ready _ _ _ _ Hparse Hready).
  destruct cbs as [[[] [] err]|], cs; by repeat split.
Qed.

Lemma call_setup_witness :
  let browser := {| contextState := suspended; audioWorklet := true; addModule := true |} in
  let opened := initialize_open browser (constructor (Some all_callbacks)) in
  let r := run_events parse_status_text
             [Opened; Received (TextData (status_text "ready"));
              CallStartRecording (Some {| trackCount := 1 |})]
             (state_of opened) in
  status (fst r) = ready
  ∧ isRecording (fst r) = true
  ∧ websocket (fst r) = Some {| readyState := OPEN |}
  ∧ sent_frames (effects_of (worklet_onmessage (PCMProcessor.Input [0.5]%float) (fst r)))
    = [[0.5]%float].
Proof.
  intros browser opened r.
  destruct (call_setup parse_status_text (Some all_callbacks) browser
              (status_text "ready") (status_value "ready")
              {| trackCount := 1 |} [0.5]%float)
    as (_ & Hst & Hrec & _ & Hws & _ & _ & Hsent).
  - reflexivity.
  - reflexivity.
  - vm_compute. reflexivity.
  - split; reflexivity.
  - split; [exact Hst | split; [exact Hrec | split; [exact Hws | exact Hsent]]].
Defined.

End Transport.

(** ** Sequencing *)

Module Sequencing.
Import Eff.

Lemma bind_normal {S E A B} (m : M S E A) (k : A -> M S E B) (s : S) (a : A) :
  result_of (m s) = Normal a ->
  bind m k s
  = (result_of (k a (state_of (m s))),
     state_of (k a (state_of (m s))),
     effects_of (m s) ++ effects_of (k a (state_of (m s)))).
Proof.
  unfold bind, result_of, state_of, effects_of.
  destruct (m s) as [[r s1] out1]. simpl. intros ->.
  by destruct (k a s1) as [[r2 s2] out2].
Qed.

Lemma result_of_triple {S E A} (r : outcome A) (s : S) (out : list E) :
  result_of (r, s, out) = r.
Proof. done. Qed.

Lemma state_of_triple {S E A} (r : outcome A) (s : S) (out : list E) :
  state_of (r, s, out) = s.
Proof. done. Qed.

Lemma effects_of_triple {S E A} (r : outcome A) (s : S) (out : list E) :
  effects_of (r, s, out) = out.
Proof. done. Qed.

End Sequencing.

(** ** The render loop *)

Module Rendering.
Import Eff RenderLoop Sequencing.

Lemma init_run (g : Graphics) (w : t) :
  result_of (init g w) = Normal (supported g)
  ∧ requested (state_of (init g w)) = requested w
  ∧ nextHandle (state_of (init g w)) = nextHandle w
  ∧ layout (this (state_of (init g w))) = layout (this w)
  ∧ animationFrameId (this (state_of (init g w))) = animationFrameId (this w)
  ∧ isInitialized (this (state_of (init g w))) = (supported g || isInitialized (this w))
  ∧ requests (effects_of (init g w)) = []
  ∧ draws (effects_of (init g w)) = 0%nat
  ∧ viewports (effects_of (init g w)) = [].
Proof.
  destruct w as [[l c ps pn tx bf a i] n rq].
  destruct g as [[] [] [] [] [] [] cb ct]; by repeat split.
Qed.

Lemma omap_Detection {B} (f : effect -> option B)
    (out : list WebGLVideoRenderer.effect) :
  (∀ e, f (Detection e) = None) -> omap f (Detection <$> out) = [].
Proof.
  intros Hf. induction out as [|e out IH]; [done|]. csimpl. by rewrite Hf.
Qed.

Lemma render_run (video : WebGLVideoRenderer.HTMLVideoElement) (readyState : Z) (w : t) :
  let ready := isInitialized (this w) && (2 <=? readyState) in
  let l' := if ready
            then fst (WebGLVideoRenderer.checkSideBySide video (layout (this w)))
            else layout (this w) in
  let drawn := ready && WebGLVideoRenderer.formatDetected l' in
  result_of (render video readyState w) = Normal tt
  ∧ state_of (render video readyState w)
    = mk (set_animationFrameId (Some (nextHandle w)) (set_layout l' (this w)))
         (nextHandle w + 1) (requested w ++ [nextHandle w])
  ∧ requests (effects_of (render video readyState w)) = [nextHandle w]
  ∧ draws (effects_of (render video readyState w)) = (if drawn then 1 else 0)%nat
  ∧ viewports (effects_of (render video readyState w))
    = (if drawn
       then [(WebGLVideoRenderer.canvas_width l', WebGLVideoRenderer.canvas_height l')]
       else []).
Proof.
  destruct w as [[l c ps pn tx bf a i] n rq].
  unfold render, bind, get. cbn [this isInitialized].
  destruct i; [|by repeat split].
  destruct (Z.ltb_spec readyState 2) as [Hlt|Hge]; cbn [negb andb].
  - rewrite (proj2 (Z.leb_gt 2 readyState)) by lia. by repeat split.
  - rewrite (proj2 (Z.leb_le 2 readyState)) by lia. cbn [andb].
    unfold checkSideBySide. cbn [this layout].
    destruct (WebGLVideoRenderer.checkSideBySide video l) as [l' out] eqn:E.
    cbn [fst]. cbn -[WebGLVideoRenderer.formatDetected].
    destruct (WebGLVideoRenderer.formatDetected l') eqn:Hd; cbn.
    + unfold requests, draws, viewports. rewrite !omap_app.
      rewrite !omap_Detection by (intros; reflexivity). by repeat split.
    + unfold requests, draws, viewports. rewrite !omap_app.
      rewrite !omap_Detection by (intros; reflexivity). by repeat split.
Qed.

Lemma requests_app (a b : list effect) : requests (a ++ b) = requests a ++ requests b.
Proof. apply omap_app. Qed.

Lemma draws_app (a b : list effect) : draws (a ++ b) = (draws a + draws b)%nat.
Proof. unfold draws. by rewrite omap_app, length_app. Qed.

Lemma viewports_app (a b : list effect) :
  viewports (a ++ b) = viewports a ++ viewports b.
Proof. apply omap_app. Qed.

Lemma start_run (g : Graphics) (video : WebGLVideoRenderer.HTMLVideoElement)
    (readyState : Z) (w : t) :
  let ok := isInitialized (this w) || supported g in
  let r := start g video readyState w in
  result_of r = Normal ok
  ∧ requests (effects_of r) = (if ok then [nextHandle w] else [])
  ∧ requested (state_of r)
    = (if ok then requested w ++ [nextHandle w] else requested w)
  ∧ nextHandle (state_of r) = (if ok then nextHandle w + 1 else nextHandle w)
  ∧ animationFrameId (this (state_of r))
    = (if ok then Some (nextHandle w) else animationFrameId (this w))
  ∧ isInitialized (this (state_of r)) = ok
  ∧ (ok = false ->
     draws (effects_of r) = 0%nat ∧ viewports (effects_of r) = []
     ∧ layout (this (state_of r)) = layout (this w)).
Proof.
  intros ok r. unfold r, start, ok.
  rewrite (bind_normal get _ w w) by done.
  change (state_of (get w)) with w. change (effects_of (get w)) with (@nil effect).
  destruct (isInitialized (this w)) eqn:Hi; cbn [orb app].
  - rewrite (bind_normal (ret true) _ w true) by done. cbn [negb].
    change (state_of (ret true w)) with w.
    change (effects_of (ret true w)) with (@nil effect).
    rewrite (bind_normal (emit (Console RenderingStarted)) _ w tt) by done.
    change (state_of (emit (Console RenderingStarted) w)) with w.
    change (effects_of (emit (Console RenderingStarted) w)) with [Console RenderingStarted].
    destruct (render_run video readyState w) as (Hr & Hs & Hq & _).
    rewrite (bind_normal (render video readyState) _ w tt) by done.
    rewrite !result_of_triple, !state_of_triple, !effects_of_triple.
    change (state_of (ret true ?x)) with x.
    change (effects_of (ret true ?x)) with (@nil effect).
    rewrite Hs. cbn [app]. rewrite app_nil_r.
    change (requests (Console RenderingStarted :: ?x)) with (requests x).
    rewrite Hq.
    cbn [this isInitialized set_animationFrameId set_layout requested nextHandle
         animationFrameId app].
    rewrite Hi. by repeat split.
  - destruct (init_run g w) as (Hr & Hq & Hn & Hl & Ha & Hini & Hreq & Hdr & Hvp).
    rewrite (bind_normal (init g) _ w (supported g)) by done.
    rewrite Hi, orb_false_r in Hini.
    destruct (supported g) eqn:Hsup; cbn [negb].
    + rewrite (bind_normal (emit (Console RenderingStarted)) _ _ tt) by done.
      change (state_of (emit (Console RenderingStarted) ?x)) with x.
      change (effects_of (emit (Console RenderingStarted) ?x)) with [Console RenderingStarted].
      destruct (render_run video readyState (state_of (init g w))) as (Hr' & Hs' & Hq' & _).
      rewrite (bind_normal (render video readyState) _ _ tt) by done.
      rewrite !result_of_triple, !state_of_triple, !effects_of_triple.
      change (state_of (ret true ?x)) with x.
      change (effects_of (ret true ?x)) with (@nil effect).
      rewrite Hs'. rewrite app_nil_r, !requests_app, Hreq.
      change (requests (Console RenderingStarted :: ?x)) with (requests x).
      rewrite Hq', Hq, Hn.
      cbn [this isInitialized set_animationFrameId set_layout requested nextHandle
           animationFrameId app].
      rewrite Hini. by repeat split.
    + rewrite !result_of_triple, !state_of_triple, !effects_of_triple.
      change (state_of (ret false ?x)) with x.
      change (effects_of (ret false ?x)) with (@nil effect).
      rewrite app_nil_r, Hreq, Hq, Hn, Ha, Hini, Hdr, Hvp, Hl. by repeat split.
Qed.

Lemma refresh_idle (video : WebGLVideoRenderer.HTMLVideoElement) (readyState : Z) (w : t) :
  requested w = [] -> refresh video readyState w = (Normal tt, w, []).
Proof. destruct w as [r n rq]. simpl. by intros ->. Qed.

Lemma refreshes_idle (frames : list (WebGLVideoRenderer.HTMLVideoElement * Z)) (w : t) :
  requested w = [] -> refreshes frames w = (Normal tt, w, []).
Proof.
  intros Hw. induction frames as [|[video rs] frames IH]; [done|].
  cbn [refreshes]. unfold bind. by rewrite refresh_idle, IH.
Qed.

Lemma refresh_single (video : WebGLVideoRenderer.HTMLVideoElement) (readyState : Z)
    (w : t) (h : Z) :
  requested w = [h] ->
  refresh video readyState w
  = (Normal tt,
     state_of (render video readyState (mk (this w) (nextHandle w) [])),
     effects_of (render video readyState (mk (this w) (nextHandle w) []))).
Proof.
  intros Hw. unfold refresh.
  rewrite (bind_normal get _ w w) by done.
  change (state_of (get w)) with w. change (effects_of (get w)) with (@nil effect).
  rewrite Hw. cbn [run_callbacks app].
  rewrite (bind_normal (modify _) _ w tt) by done.
  change (state_of (modify ?f w)) with (f w).
  change (effects_of (modify ?f w)) with (@nil effect).
  destruct (render_run video readyState (mk (this w) (nextHandle w) [])) as (Hr & _).
  rewrite (bind_normal (render video readyState) _ _ tt) by done.
  rewrite !result_of_triple, !state_of_triple, !effects_of_triple.
  change (result_of (ret tt ?x)) with (@Normal unit tt).
  change (state_of (ret tt ?x)) with x.
  change (effects_of (ret tt ?x)) with (@nil effect).
  by rewrite app_nil_r.
Qed.

(** One loop: the only requested frame is the one stored in
    [animationFrameId], the last handle handed out. *)
Lemma refreshes_single (frames : list (WebGLVideoRenderer.HTMLVideoElement * Z)) (w : t) :
  requested w = [nextHandle w - 1] ->
  animationFrameId (this w) = Some (nextHandle w - 1) ->
  let r := refreshes frames w in
  result_of r = Normal tt
  ∧ nextHandle (state_of r) = nextHandle w + Z.of_nat (length frames)
  ∧ requested (state_of r) = [nextHandle (state_of r) - 1]
  ∧ animationFrameId (this (state_of r)) = Some (nextHandle (state_of r) - 1)
  ∧ isInitialized (this (state_of r)) = isInitialized (this w)
  ∧ gl (this (state_of r)) = gl (this w)
  ∧ texture (this (state_of r)) = texture (this w)
  ∧ buffer (this (state_of r)) = buffer (this w)
  ∧ programSBS (this (state_of r)) = programSBS (this w)
  ∧ programNormal (this (state_of r)) = programNormal (this w)
  ∧ length (requests (effects_of r)) = length frames.
Proof.
  revert w. induction frames as [|[video rs] frames IH]; intros w Hq Ha.
  - cbn. repeat split; try done. lia.
  - cbn [refreshes].
    rewrite (bind_normal (refresh video rs) _ w tt)
      by by rewrite (refresh_single _ _ _ _ Hq).
    rewrite (refresh_single _ _ _ _ Hq).
    rewrite !result_of_triple, !state_of_triple, !effects_of_triple.
    destruct (render_run video rs (mk (this w) (nextHandle w) []))
      as (_ & Hs & Hreq & _).
    cbn [this nextHandle requested app] in Hs, Hreq.
    rewrite Hs.
    match goal with
    | |- context [refreshes frames ?w1] =>
        destruct (IH w1) as (H1 & H2 & H3 & H4 & H5 & H6 & H7 & H8 & H9 & H10 & H11)
    end.
    { cbn. f_equal. lia. }
    { cbn. f_equal. lia. }
    rewrite H1, H3, H4, !H2, H5, H6, H7, H8, H9, H10, requests_app, length_app, H11, Hreq.
    cbn. repeat split; try done. lia.
Qed.

Lemma stop_run (w : t) :
  stop w
  = match animationFrameId (this w) with
    | Some h =>
        if h =? 0 then (Normal tt, w, [Console RenderingStopped])
        else (Normal tt,
              mk (set_animationFrameId None (this w)) (nextHandle w)
                 (filter (fun x => x <> h) (requested w)),
              [CancelAnimationFrame h; Console RenderingStopped])
    | None => (Normal tt, w, [Console RenderingStopped])
    end.
Proof.
  unfold stop, bind, get. cbn.
  destruct (animationFrameId (this w)) as [h|]; [|done].
  by destruct (h =? 0).
Qed.

(** X23.  [start] reports whether the renderer can run: it returns [true]
    exactly when the renderer was already initialised or every step of
    [init] succeeds, and then exactly one animation frame has been
    requested.  When it returns [false] nothing is requested, drawn or
    detected and the renderer stays uninitialised, so that a later
    [start] tries [init] again. *)
Theorem start_reports_capability (g : Graphics)
    (video : WebGLVideoRenderer.HTMLVideoElement) (readyState : Z) (w : t) :
  let ok := isInitialized (this w) || supported g in
  let r := start g video readyState w in
  result_of r = Normal ok
  ∧ isInitialized (this (state_of r)) = ok
  ∧ requests (effects_of r) = (if ok then [nextHandle w] else [])
  ∧ requested (state_of r)
    = (if ok then requested w ++ [nextHandle w] else requested w)
  ∧ (ok = false ->
     draws (effects_of r) = 0%nat ∧ viewports (effects_of r) = []
     ∧ layout (this (state_of r)) = layout (this w)).
Proof.
  intros ok r.
  destruct (start_run g video readyState w) as (H1 & H2 & H3 & _ & _ & H6 & H7).
  done.
Qed.

(** X24.  One [render] tick always requests exactly one next frame.  It draws
    at most one quad, and it draws only when the renderer is
    initialised, the video has current data ([readyState] at least 2) and
    a layout has been detected; the viewport is then the canvas size of
    that layout.  Before initialisation or without current data it does
    not even look at the video dimensions. *)
Theorem render_draws_only_when_ready (video : WebGLVideoRenderer.HTMLVideoElement)
    (readyState : Z) (w : t) :
  let r := render video readyState w in
  let ready := isInitialized (this w) && (2 <=? readyState) in
  let l' := layout (this (state_of r)) in
  let drawn := ready && WebGLVideoRenderer.formatDetected l' in
  result_of r = Normal tt
  ∧ requests (effects_of r) = [nextHandle w]
  ∧ requested (state_of r) = requested w ++ [nextHandle w]
  ∧ animationFrameId (this (state_of r)) = Some (nextHandle w)
  ∧ l' = (if ready
          then fst (WebGLVideoRenderer.checkSideBySide video (layout (this w)))
          else layout (this w))
  ∧ draws (effects_of r) = (if drawn then 1 else 0)%nat
  ∧ viewports (effects_of r)
    = (if drawn
       then [(WebGLVideoRenderer.canvas_width l', WebGLVideoRenderer.canvas_height l')]
       else []).
Proof.
  intros r ready l' drawn. unfold drawn, l', ready, r.
  destruct (render_run video readyState w) as (H1 & H2 & H3 & H4 & H5).
  rewrite H2. cbn [this layout set_animationFrameId set_layout requested animationFrameId].
  done.
Qed.

(** X25.  A started render loop keeps exactly one animation frame requested,
    however many display refreshes pass, each refresh running one
    [render]; [stop] cancels that frame, after which no refresh runs
    anything, while the graphics resources are kept, so that a later
    [start] resumes without running [init]. *)
Theorem loop_runs_until_stopped (g g' : Graphics)
    (video : WebGLVideoRenderer.HTMLVideoElement) (readyState : Z)
    (frames later : list (WebGLVideoRenderer.HTMLVideoElement * Z)) (w : t) :
  requested w = [] ->
  0 < nextHandle w ->
  isInitialized (this w) || supported g = true ->
  let started := state_of (start g video readyState w) in
  let running := state_of (refreshes frames started) in
  let stopped := state_of (stop running) in
  requested running = [nextHandle w + Z.of_nat (length frames)]
  ∧ animationFrameId (this running) = Some (nextHandle w + Z.of_nat (length frames))
  ∧ length (requests (effects_of (refreshes frames started))) = length frames
  ∧ effects_of (stop running)
    = [CancelAnimationFrame (nextHandle w + Z.of_nat (length frames));
       Console RenderingStopped]
  ∧ requested stopped = []
  ∧ animationFrameId (this stopped) = None
  ∧ refreshes later stopped = (Normal tt, stopped, [])
  ∧ result_of (start g' video readyState stopped) = Normal true.
Proof.
  intros Hidle Hpos Hok started running stopped.
  destruct (start_run g video readyState w) as (_ & _ & Hq & Hn & Ha & Hi & _).
  rewrite Hok, Hidle in *. cbn [app] in Hq. fold started in Hq, Hn, Ha, Hi.
  destruct (refreshes_single frames started)
    as (_ & Hn' & Hq' & Ha' & Hi' & _ & _ & _ & _ & _ & Hlen).
  { rewrite Hq, Hn. f_equal. lia. }
  { rewrite Ha, Hn. f_equal. lia. }
  cbv zeta in *. fold running in Hn', Hq', Ha', Hi'.
  assert (Hh : nextHandle running - 1 = nextHandle w + Z.of_nat (length frames)) by lia.
  rewrite Hh in Hq', Ha'.
  assert (Hstop : stop running
                  = (Normal tt,
                     mk (set_animationFrameId None (this running)) (nextHandle running) [],
                     [CancelAnimationFrame (nextHandle w + Z.of_nat (length frames));
                      Console RenderingStopped])).
  { rewrite stop_run, Ha', Hq'.
    rewrite (proj2 (Z.eqb_neq _ 0)) by lia.
    cbn. by rewrite decide_False by (intros H; by apply H). }
  unfold stopped. rewrite Hstop, !state_of_triple, effects_of_triple.
  split; [done|]. split; [done|]. split; [done|]. split; [done|].
  split; [done|]. split; [done|]. split; [by apply refreshes_idle|].
  destruct (start_run g' video readyState
              (mk (set_animationFrameId None (this running)) (nextHandle running) []))
    as (Hr & _).
  rewrite Hr. cbn [this isInitialized set_animationFrameId]. by rewrite Hi', Hi.
Qed.

Lemma loop_runs_until_stopped_witness :
  let g := {| getContext := true; vertexShader := Built; fragmentShaderSBS := Built;
              fragmentShaderNormal := Built; linkSBS := Built; linkNormal := Built;
              createBuffer := true; createTexture := true |} in
  let video := {| WebGLVideoRenderer.videoWidth := 1920;
                  WebGLVideoRenderer.videoHeight := 540 |} in
  let w := mk (constructor 300 150) 1 [] in
  let started := state_of (start g video 4 w) in
  let running := state_of (refreshes [(video, 4); (video, 4); (video, 4)] started) in
  requested running = [1 + Z.of_nat 3]
  ∧ requested (state_of (stop running)) = [].
Proof.
  intros g video w started running.
  destruct (loop_runs_until_stopped g g video 4 [(video, 4); (video, 4); (video, 4)] [] w)
    as (Hq & _ & _ & _ & Hs & _).
  - reflexivity.
  - reflexivity.
  - reflexivity.
  - split; [exact Hq | exact Hs].
Defined.

(** X26.  [destroy] on a running loop cancels the requested frame, deletes the
    texture, the buffer and the two programs that exist, and marks the
    renderer uninitialised: no refresh runs anything afterwards, and a
    later [start] has to run [init] again, succeeding exactly when the
    graphics stack supports it. *)
Theorem destroy_ends_rendering (g g' : Graphics)
    (video : WebGLVideoRenderer.HTMLVideoElement) (readyState : Z)
    (frames later : list (WebGLVideoRenderer.HTMLVideoElement * Z)) (w : t) :
  requested w = [] ->
  0 < nextHandle w ->
  isInitialized (this w) || supported g = true ->
  let started := state_of (start g video readyState w) in
  let running := state_of (refreshes frames started) in
  let destroyed := state_of (destroy running) in
  result_of (destroy running) = Normal tt
  ∧ effects_of (destroy running)
    = [CancelAnimationFrame (nextHandle w + Z.of_nat (length frames));
       Console RenderingStopped]
      ++ (if gl (this started)
          then (if texture (this started) then [DeleteTexture] else [])
               ++ (if buffer (this started) then [DeleteBuffer] else [])
               ++ (if programSBS (this started)
                   then [DeleteProgram WebGLVideoRenderer.programSBS] else [])
               ++ (if programNormal (this started)
                   then [DeleteProgram WebGLVideoRenderer.programNormal] else [])
          else [])
  ∧ requested destroyed = []
  ∧ isInitialized (this destroyed) = false
  ∧ refreshes later destroyed = (Normal tt, destroyed, [])
  ∧ result_of (start g' video readyState destroyed) = Normal (supported g').
Proof.
  intros Hidle Hpos Hok started running destroyed.
  destruct (start_run g video readyState w) as (_ & _ & Hq & Hn & Ha & Hi & _).
  rewrite Hok, Hidle in *. cbn [app] in Hq. fold started in Hq, Hn, Ha, Hi.
  destruct (refreshes_single frames started)
    as (_ & Hn' & Hq' & Ha' & Hi' & Hgl & Htx & Hbf & Hps & Hpn & _).
  { rewrite Hq, Hn. f_equal. lia. }
  { rewrite Ha, Hn. f_equal. lia. }
  cbv zeta in *. fold running in Hn', Hq', Ha', Hi', Hgl, Htx, Hbf, Hps, Hpn.
  assert (Hh : nextHandle running - 1 = nextHandle w + Z.of_nat (length frames)) by lia.
  rewrite Hh in Hq', Ha'.
  assert (Hdestroy :
    destroy running
    = (Normal tt,
       mk (set_isInitialized false (set_animationFrameId None (this running)))
          (nextHandle running) [],
       [CancelAnimationFrame (nextHandle w + Z.of_nat (length frames));
        Console RenderingStopped]
       ++ (if gl (this started)
           then (if texture (this started) then [DeleteTexture] else [])
                ++ (if buffer (this started) then [DeleteBuffer] else [])
                ++ (if programSBS (this started)
                    then [DeleteProgram WebGLVideoRenderer.programSBS] else [])
                ++ (if programNormal (this started)
                    then [DeleteProgram WebGLVideoRenderer.programNormal] else [])
           else []))).
  { unfold destroy.
    rewrite (bind_normal stop _ running tt) by (rewrite stop_run, Ha'; by case_match).
    rewrite stop_run, Ha', Hq'.
    rewrite (proj2 (Z.eqb_neq _ 0)) by lia.
    rewrite !state_of_triple, !effects_of_triple.
    rewrite <- Hgl, <- Htx, <- Hbf, <- Hps, <- Hpn.
    destruct running as [[l c ps pn tx bf a i] n rq].
    cbn. rewrite decide_False by (intros H; by apply H).
    by destruct c, tx, bf, ps, pn. }
  unfold destroyed. rewrite Hdestroy, !state_of_triple, effects_of_triple, result_of_triple.
  split; [done|]. split; [done|]. split; [done|]. split; [done|].
  split; [by apply refreshes_idle|].
  destruct (start_run g' video readyState
              (mk (set_isInitialized false (set_animationFrameId None (this running)))
                  (nextHandle running) []))
    as (Hr & _).
  by rewrite Hr.
Qed.

Lemma destroy_ends_rendering_witness :
  let g := {| getContext := true; vertexShader := Built; fragmentShaderSBS := Built;
              fragmentShaderNormal := Built; linkSBS := Built; linkNormal := Built;
              createBuffer := true; createTexture := true |} in
  let broken := {| getContext := false; vertexShader := Built; fragmentShaderSBS := Built;
                   fragmentShaderNormal := Built; linkSBS := Built; linkNormal := Built;
                   createBuffer := true; createTexture := true |} in
  let video := {| WebGLVideoRenderer.videoWidth := 640;
                  WebGLVideoRenderer.videoHeight := 480 |} in
  let w := mk (constructor 300 150) 1 [] in
  let running := state_of (refreshes [(video, 4)] (state_of (start g video 4 w))) in
  isInitialized (this (state_of (destroy running))) = false
  ∧ result_of (start broken video 4 (state_of (destroy running))) = Normal (supported broken).
Proof.
  intros g broken video w running.
  destruct (destroy_ends_rendering g broken video 4 [(video, 4)] [] w)
    as (_ & _ & _ & Hi & _ & Hs).
  - reflexivity.
  - reflexivity.
  - reflexivity.
  - split; [exact Hi | exact Hs].
Defined.

Lemma agrees_constructor (canvasW canvasH : Z) :
  layout_agrees (WebGLVideoRenderer.constructor canvasW canvasH).
Proof. intros H. discriminate H. Qed.

Lemma agrees_check (video : WebGLVideoRenderer.HTMLVideoElement)
    (l : WebGLVideoRenderer.t) :
  layout_agrees l -> layout_agrees (fst (WebGLVideoRenderer.checkSideBySide video l)).
Proof.
  intros Hl. exact (Layout.detection_consistent [video] l Hl).
Qed.

Lemma agrees_render (video : WebGLVideoRenderer.HTMLVideoElement) (readyState : Z) (w : t) :
  layout_agrees (layout (this w)) ->
  layout_agrees (layout (this (state_of (render video readyState w)))).
Proof.
  intros Hl. destruct (render_run video readyState w) as (_ & -> & _).
  cbn [this layout set_animationFrameId set_layout].
  destruct (isInitialized (this w) && (2 <=? readyState)); [|done].
  by apply agrees_check.
Qed.

Lemma agrees_start (g : Graphics) (video : WebGLVideoRenderer.HTMLVideoElement)
    (readyState : Z) (w : t) :
  layout_agrees (layout (this w)) ->
  layout_agrees (layout (this (state_of (start g video readyState w)))).
Proof.
  intros Hl. unfold start.
  rewrite (bind_normal get _ w w) by done.
  change (state_of (get w)) with w.
  rewrite state_of_triple.
  assert (Hinit : ∀ b w1, layout_agrees (layout (this w1)) ->
            layout_agrees (layout (this (state_of
              ((if negb b then ret false
                else bind (emit (Console RenderingStarted))
                       (fun _ => bind (render video readyState) (fun _ => ret true))) w1))))).
  { intros [] w1 Hw1; [|done]. cbn [negb].
    rewrite (bind_normal (emit (Console RenderingStarted)) _ w1 tt) by done.
    change (state_of (emit (Console RenderingStarted) w1)) with w1.
    destruct (render_run video readyState w1) as (Hr & _).
    rewrite (bind_normal (render video readyState) _ w1 tt) by done.
    rewrite !state_of_triple. change (state_of (ret true ?x)) with x.
    by apply agrees_render. }
  destruct (isInitialized (this w)).
  - rewrite (bind_normal (ret true) _ w true) by done. rewrite state_of_triple.
    by apply Hinit.
  - destruct (init_run g w) as (Hr & _ & _ & Hlay & _).
    rewrite (bind_normal (init g) _ w (supported g)) by done. rewrite state_of_triple.
    apply Hinit. by rewrite Hlay.
Qed.

Lemma agrees_refreshes (frames : list (WebGLVideoRenderer.HTMLVideoElement * Z)) (w : t) :
  requested w = [nextHandle w - 1] ->
  animationFrameId (this w) = Some (nextHandle w - 1) ->
  layout_agrees (layout (this w)) ->
  layout_agrees (layout (this (state_of (refreshes frames w)))).
Proof.
  revert w. induction frames as [|[video rs] frames IH]; intros w Hq Ha Hl; [done|].
  cbn [refreshes].
  rewrite (bind_normal (refresh video rs) _ w tt)
    by by rewrite (refresh_single _ _ _ _ Hq).
  rewrite (refresh_single _ _ _ _ Hq), !state_of_triple.
  pose proof (agrees_render video rs (mk (this w) (nextHandle w) []) Hl) as Hl'.
  destruct (render_run video rs (mk (this w) (nextHandle w) [])) as (_ & Hs & _).
  cbn [this nextHandle requested app] in Hs.
  rewrite Hs in Hl' |- *.
  apply IH; [cbn; f_equal; lia | cbn; f_equal; lia | done].
Qed.

(** X27.  What is drawn fits the frame being drawn.  In a loop started on a new
    renderer, after any number of refreshes with any frame sizes, a
    refresh whose video has current data and positive dimensions draws
    exactly one quad, into a viewport and canvas of half the frame width
    by the frame height when the frame is classified side-by-side and of
    the full frame size otherwise. *)
Theorem drawn_viewport_fits_frame (g : Graphics) (canvasW canvasH handle : Z)
    (first : WebGLVideoRenderer.HTMLVideoElement) (firstReadyState : Z)
    (frames : list (WebGLVideoRenderer.HTMLVideoElement * Z))
    (video : WebGLVideoRenderer.HTMLVideoElement) (readyState : Z) :
  0 < handle ->
  supported g = true ->
  WebGLVideoRenderer.videoWidth video > 0 ->
  WebGLVideoRenderer.videoHeight video > 0 ->
  2 <= readyState ->
  let w := mk (constructor canvasW canvasH) handle [] in
  let running := state_of (refreshes frames (state_of (start g first firstReadyState w))) in
  let r := refresh video readyState running in
  draws (effects_of r) = 1%nat
  ∧ viewports (effects_of r) = [canvas_for video]
  ∧ (WebGLVideoRenderer.canvas_width (layout (this (state_of r))),
     WebGLVideoRenderer.canvas_height (layout (this (state_of r)))) = canvas_for video
  ∧ WebGLVideoRenderer.isSideBySide (layout (this (state_of r)))
    = WebGLVideoRenderer.exceeds_threshold video.
Proof.
  intros Hpos Hsup Hw Hh Hrs w running r.
  destruct (start_run g first firstReadyState w) as (_ & _ & Hq & Hn & Ha & Hi & _).
  rewrite Hsup, orb_true_r in *. cbn [app requested w] in Hq.
  set (started := state_of (start g first firstReadyState w)) in *.
  assert (Hl : layout_agrees (layout (this started))).
  { apply agrees_start, agrees_constructor. }
  destruct (refreshes_single frames started)
    as (_ & Hn' & Hq' & Ha' & Hi' & _).
  { rewrite Hq, Hn. f_equal. lia. }
  { rewrite Ha, Hn. f_equal. lia. }
  pose proof (agrees_refreshes frames started) as Hl'.
  cbv zeta in *. fold running in Hn', Hq', Ha', Hi', Hl'.
  specialize (Hl' ltac:(rewrite Hq, Hn; f_equal; lia)
                  ltac:(rewrite Ha, Hn; f_equal; lia) Hl).
  unfold r. rewrite (refresh_single _ _ _ _ Hq'), state_of_triple, effects_of_triple.
  destruct (render_run video readyState (mk (this running) (nextHandle running) []))
    as (_ & Hs & _ & Hd & Hv).
  cbn [this] in Hs, Hd, Hv. rewrite Hi', Hi in Hs, Hd, Hv.
  rewrite (proj2 (Z.leb_le 2 readyState)) in Hs, Hd, Hv by done.
  cbn [andb] in Hs, Hd, Hv.
  rewrite Hs, Hd, Hv. cbn [this layout set_animationFrameId set_layout].
  set (l := layout (this running)) in *.
  assert (Hfinal :
    WebGLVideoRenderer.formatDetected (fst (WebGLVideoRenderer.checkSideBySide video l)) = true
    ∧ (WebGLVideoRenderer.canvas_width (fst (WebGLVideoRenderer.checkSideBySide video l)),
       WebGLVideoRenderer.canvas_height (fst (WebGLVideoRenderer.checkSideBySide video l)))
      = canvas_for video
    ∧ WebGLVideoRenderer.isSideBySide (fst (WebGLVideoRenderer.checkSideBySide video l))
      = WebGLVideoRenderer.exceeds_threshold video).
  { destruct (decide (WebGLVideoRenderer.formatDetected l = true
                      ∧ WebGLVideoRenderer.lastVideoWidth l = WebGLVideoRenderer.videoWidth video
                      ∧ WebGLVideoRenderer.lastVideoHeight l = WebGLVideoRenderer.videoHeight video))
      as [(Hdet & Hlw & Hlh)|Hrun].
    - rewrite Layout.checkSideBySide_cached by done. cbn [fst].
      destruct (Hl' Hdet) as (Hsbs & Hcw & Hch).
      rewrite Hlw, Hlh in Hsbs. rewrite Hlw in Hcw. rewrite Hlh in Hch.
      assert (video = {| WebGLVideoRenderer.videoWidth := WebGLVideoRenderer.videoWidth video;
                         WebGLVideoRenderer.videoHeight := WebGLVideoRenderer.videoHeight video |})
        as Hvideo by by destruct video.
      rewrite <- Hvideo in Hsbs.
      unfold canvas_for, WebGLVideoRenderer.isSideBySide.
      rewrite Hcw, Hch, Hsbs.
      by destruct (WebGLVideoRenderer.exceeds_threshold video).
    - rewrite Layout.checkSideBySide_detects; [| done | done |].
      + unfold canvas_for, WebGLVideoRenderer.isSideBySide.
        by destruct (WebGLVideoRenderer.exceeds_threshold video).
      + destruct (WebGLVideoRenderer.formatDetected l); [|by left]. right.
        destruct (decide (WebGLVideoRenderer.videoWidth video
                          = WebGLVideoRenderer.lastVideoWidth l)); [|by left].
        destruct (decide (WebGLVideoRenderer.videoHeight video
                          = WebGLVideoRenderer.lastVideoHeight l)); [|by right].
        exfalso. apply Hrun. by repeat split. }
  destruct Hfinal as (Hdet & Hcanvas & Hsbs).
  rewrite Hdet. injection Hcanvas as Hcw Hch.
  rewrite Hcw, Hch, Hsbs. unfold canvas_for. done.
Qed.

Lemma drawn_viewport_fits_frame_witness :
  let g := {| getContext := true; vertexShader := Built; fragmentShaderSBS := Built;
              fragmentShaderNormal := Built; linkSBS := Built; linkNormal := Built;
              createBuffer := true; createTexture := true |} in
  let plain := {| WebGLVideoRenderer.videoWidth := 640;
                  WebGLVideoRenderer.videoHeight := 480 |} in
  let packed := {| WebGLVideoRenderer.videoWidth := 1920;
                   WebGLVideoRenderer.videoHeight := 540 |} in
  let w := mk (constructor 300 150) 1 [] in
  let running := state_of (refreshes [(plain, 4); (plain, 1)] (state_of (start g plain 0 w))) in
  draws (effects_of (refresh packed 4 running)) = 1%nat
  ∧ viewports (effects_of (refresh packed 4 running)) = [(960, 540)].
Proof.
  intros g plain packed w running.
  destruct (drawn_viewport_fits_frame g 300 150 1 plain 0 [(plain, 4); (plain, 1)] packed 4)
    as (Hd & Hv & _).
  - reflexivity.
  - reflexivity.
  - reflexivity.
  - reflexivity.
  - discriminate.
  - split; [exact Hd | exact Hv].
Defined.

End Rendering.

(** ** The video session: failure reports, interrupt and close *)

Module Peer.
Import Eff LiveTalkingWebRTC.

(** X28.  [connect], whatever happens: it creates a peer connection and never
    closes it, even when it fails; it posts the offer once, to
    [serverUrl + "/offer"], and only after the local description has been
    set; it tells the error observer [String(error)] once for the error
    it then rethrows, and nothing when it succeeds; and it succeeds, with
    the server's session id, exactly on a successful exchange. *)
Theorem connect_reports_each_failure_once (x : Exchange) (s : t) :
  let r := connect x s in
  is_Some (peerConnection (state_of r))
  ∧ config (state_of r) = config s
  ∧ peer_closes (effects_of r) = []
  ∧ offers_posted (effects_of r)
    = (if createOffer x && setLocalDescription x
       then [serverUrl (config s) +:+ "/offer"] else [])
  ∧ errors_reported (effects_of r)
    = match result_of r with
      | Thrown e => if onError (config s) then [exn_to_string e] else []
      | Normal _ => []
      end
  ∧ match successful x with
    | Some answer => result_of r = Normal (sessionid answer)
    | None => ∃ e, result_of r = Thrown e
    end.
Proof.
  destruct s as [[url ? ? ? notify] pc sid].
  destruct x as [[] [] [[[] st [d|]]|] []];
    unfold successful, refused, connect, try_catch, bind, result_of, state_of, effects_of;
    cbn; try destruct (code_is_minus_one d) eqn:Hc; cbn;
    destruct notify; cbn; repeat split; eauto.
Qed.

(** X29.  [interrupt] is advisory: it never throws and never changes the
    session, also when the request fails.  It posts the stored session id
    to [serverUrl + "/interrupt_talk"] once, and posts nothing at all
    while the session id is 0. *)
Theorem interrupt_is_advisory (delivered : bool) (s : t) :
  let r := interrupt delivered s in
  result_of r = Normal tt
  ∧ state_of r = s
  ∧ effects_of r
    = (if (sessionId s =? 0)%float then []
       else PostInterrupt (serverUrl (config s) +:+ "/interrupt_talk") (sessionId s)
            :: (if delivered then []
                else [ConsoleError "[LiveTalking] Interrupt error:" (Rejected "fetch")])).
Proof.
  unfold interrupt, bind, get, try_catch, result_of, state_of, effects_of. cbn.
  destruct (sessionId s =? 0)%float; [done|]. by destruct delivered.
Qed.

(** X30.  The life of a session: after a successful [connect] an [interrupt]
    names the session id the server gave (when it is not 0); [close]
    closes the peer connection once, forgets it and resets the id to 0,
    after which [interrupt] posts nothing and a second [close] closes
    nothing. *)
Theorem session_ends_with_close (x : Exchange) (answer : Answer)
    (delivered : bool) (s : t) :
  successful x = Some answer ->
  (sessionid answer =? 0)%float = false ->
  let connected := state_of (connect x s) in
  let closed := state_of (close connected) in
  interrupts_posted (effects_of (interrupt delivered connected))
  = [(serverUrl (config s) +:+ "/interrupt_talk", sessionid answer)]
  ∧ result_of (close connected) = Normal tt
  ∧ peer_closes (effects_of (close connected)) = [tt]
  ∧ peerConnection closed = None
  ∧ getSessionId closed = 0%float
  ∧ interrupt delivered closed = (Normal tt, closed, [])
  ∧ peer_closes (effects_of (close closed)) = []
  ∧ state_of (close closed) = closed.
Proof.
  intros Hok Hid connected closed.
  destruct (Negotiation.connect_successful x answer s Hok) as [_ Hsid].
  fold connected in Hsid.
  assert (Hpc : is_Some (peerConnection connected) ∧ config connected = config s).
  { unfold connected. destruct s as [[url ? ? ? notify] pc sid].
    unfold successful, refused in Hok.
    destruct x as [[] [] [[[] st [d|]]|] []]; simpl in Hok; try done.
    destruct (code_is_minus_one d) eqn:Hc; [done|].
    unfold connect, try_catch, bind, state_of. cbn. rewrite Hc. cbn. eauto. }
  destruct Hpc as [[pc Hpc] Hcfg].
  unfold closed. destruct connected as [cfg pc' sid]. simpl in *. subst pc' sid cfg.
  unfold interrupt, close, bind, get, try_catch, when, emit, modify,
    result_of, state_of, effects_of. cbn. rewrite Hid. cbn.
  by destruct delivered.
Qed.

Lemma session_ends_with_close_witness :
  let cfg := {| serverUrl := "http://localhost:8010"; onVideoTrack := true;
                onAudioTrack := true; onConnectionStateChange := true;
                onError := true |} in
  let answer := {| code := Some (Json.Number 0%float); msg := None;
                   sdp := "v=0"; type := "answer"; sessionid := 42%float |} in
  let x := {| createOffer := true; setLocalDescription := true;
              fetch := Some {| ok := true; status := 200; json := Some answer |};
              setRemoteDescription := true |} in
  let connected := state_of (connect x (constructor cfg)) in
  interrupts_posted (effects_of (interrupt true connected))
  = [("http://localhost:8010/interrupt_talk", 42%float)]
  ∧ getSessionId (state_of (close connected)) = 0%float
  ∧ interrupt true (state_of (close connected))
    = (Normal tt, state_of (close connected), []).
Proof.
  intros cfg answer x connected.
  destruct (session_ends_with_close x answer true (constructor cfg))
    as (Hi & _ & _ & _ & Hz & Hn & _).
  - vm_compute. reflexivity.
  - vm_compute. reflexivity.
  - split; [exact Hi | split; [exact Hz | exact Hn]].
Defined.

End Peer.
